(** * Lodestar: the beacon API, the validator attestation service, the
    execution-engine codec and the epoch-processing pipeline

    A shallow embedding of
    - [packages/lodestar/src/api/impl/beacon/beacon.ts]
      ([BeaconApi.getValidator], [serializeExecutionPayload],
      [parseExecutionPayload]),
    - [packages/lodestar-validator/src/services/attestation.ts]
      ([AttestationService.createAttestation], [updateDuties],
      [aggregateAttestations], and the gossip handlers of attestations),
      and
    - the epoch-processing performance suite, which drives the stages of
      the epoch transition one after the other.

    JavaScript [number]s that hold slots, epochs and indices are [Z] or
    [nat]; [bigint] amounts of Gwei are [N]; byte arrays are
    [list Byte.byte]; [Map]s are [gmap]s; [undefined] and [null] are
    [None]. *)

From Stdlib Require Import ZArith NArith Lia List.
From Stdlib.Strings Require Import Ascii String Byte.
From Stdlib Require DecimalString.
From stdpp Require Import base option list gmap strings sorting.

Local Open Scope string_scope.
Local Open Scope list_scope.

(** ** Bytes as keys *)

#[global] Instance byte_eq_dec : EqDecision Byte.byte.
Proof.
  intros a b. destruct (Byte.eqb a b) eqn:E.
  - left. by apply Byte.byte_dec_bl.
  - right. intros ->. rewrite (Byte.byte_dec_lb eq_refl) in E. discriminate.
Defined.

#[global] Instance byte_countable : Countable Byte.byte :=
  inj_countable Byte.to_N Byte.of_N Byte.of_to_N.

(** ** Consensus types

    The types of [@chainsafe/lodestar-types] the sources use. Slots,
    epochs and validator indices are JavaScript numbers, amounts are
    bigints. The records carry the fields the data model of the
    specification (section 3) names. *)

Definition Slot := Z.
Definition Epoch := Z.
Definition CommitteeIndex := Z.
Definition ValidatorIndex := nat.
Definition Gwei := N.
Definition Bytes := list Byte.byte.
Definition Root := Bytes.
Definition BLSPubkey := Bytes.
Definition BLSSignature := Bytes.

Record Checkpoint := mkCheckpoint {
  cp_epoch : Epoch;
  cp_root : Root
}.
Arguments mkCheckpoint _%_Z _.

#[global] Instance Checkpoint_eq_dec : EqDecision Checkpoint.
Proof. solve_decision. Defined.

Record Validator := mkValidator {
  pubkey : BLSPubkey;
  effectiveBalance : Gwei;
  slashed : bool;
  activationEligibilityEpoch : Epoch;
  activationEpoch : Epoch;
  exitEpoch : Epoch;
  withdrawableEpoch : Epoch
}.
Arguments mkValidator _ _%_N _ _%_Z _%_Z _%_Z _%_Z.

Record BeaconState := mkBeaconState {
  slot : Slot;
  validators : list Validator;
  balances : list Gwei;
  justificationBits : list bool;
  previousJustifiedCheckpoint : Checkpoint;
  currentJustifiedCheckpoint : Checkpoint;
  finalizedCheckpoint : Checkpoint;
  slashings : list Gwei
}.
Arguments mkBeaconState _%_Z _ _ _ _ _ _ _.

(** What a call of an [async] function or of a function that may throw
    ends in. *)
Inductive Error :=
  | IndexLookupError
  | TypeError
  | AssertionError
  | ErrorMessage (msg : string).

Inductive Completion (A : Type) :=
  | Return (a : A)
  | Throw (e : Error).
Arguments Return {A} a.
Arguments Throw {A} e.

(** ** [BeaconApi] *)

Module BeaconApi.

(** The part of [EpochContext] the API reads: the [pubkey2index] map. *)
Record EpochContext := mkEpochContext {
  pubkey2index : gmap BLSPubkey ValidatorIndex
}.

(** What [this.chain.getHeadStateContext()] resolves to. *)
Record HeadStateContext := mkHead {
  epochCtx : EpochContext;
  state : BeaconState
}.

(** [ValidatorResponse]; [validator] and [balance] are array reads and
    are [undefined] past the end of the array. *)
Record ValidatorResponse := mkResponse {
  r_validator : option Validator;
  r_balance : option Gwei;
  r_pubkey : BLSPubkey;
  r_index : ValidatorIndex
}.

(** [if (index)] on [number | undefined]: [undefined] and [0] are
    falsy. *)
Definition truthy (index : option ValidatorIndex) : bool :=
  match index with
  | None => false
  | Some O => false
  | Some (S _) => true
  end.

(** [getValidator], with the head its [await] resolved to. *)
Definition getValidator (head : HeadStateContext) (pk : BLSPubkey)
  : Completion (option ValidatorResponse) :=
  let index := pubkey2index (epochCtx head) !! pk in
  if truthy index then
    match index with
    | Some i =>
        Return (Some {| r_validator := validators (state head) !! i;
                        r_balance := balances (state head) !! i;
                        r_pubkey := pk;
                        r_index := i |})
    | None => Return None
    end
  else Return None.

(** A head with one validator, stored at index 0. *)
Definition pk0 : BLSPubkey := [x01; x02].
Definition pk1 : BLSPubkey := [xff].
Definition v0 : Validator :=
  mkValidator pk0 32000000000 false 0 0 100 200.
Definition state0 : BeaconState :=
  mkBeaconState 64 [v0] [32000000000%N] [false; false; false; false]
    (mkCheckpoint 0 []) (mkCheckpoint 0 []) (mkCheckpoint 0 []) [].
Definition head0 : HeadStateContext :=
  mkHead (mkEpochContext {[ pk0 := 0%nat ]}) state0.

Lemma truthy_spec (index : option ValidatorIndex) :
  truthy index = true ↔ ∃ i, index = Some i ∧ i ≠ 0%nat.
Proof.
  split.
  - destruct index as [[|i]|]; simpl; try discriminate.
    intros _. exists (S i). split; [done|lia].
  - intros (i & -> & Hi). destruct i; [done|reflexivity].
Qed.

Lemma getValidator_unknown (head : HeadStateContext) (pk : BLSPubkey) :
  pubkey2index (epochCtx head) !! pk = None →
  getValidator head pk = Return None.
Proof. intros H. unfold getValidator. by rewrite H. Qed.

(** C3, as the specification states it: a request for a public key that
    is not in the table ends in [IndexLookupError]. It does not: the
    lookup yields [undefined] and [getValidator] resolves to [null]. *)
Lemma getValidator_unknown_no_error :
  pubkey2index (epochCtx head0) !! pk1 = None ∧
  getValidator head0 pk1 ≠ Throw IndexLookupError ∧
  getValidator head0 pk1 = Return None.
Proof.
  assert (H : pubkey2index (epochCtx head0) !! pk1 = None) by by vm_compute.
  split; [exact H|]. rewrite (getValidator_unknown _ _ H). split; [discriminate|done].
Qed.

(** C3, amended: for every public key that is not in the public-key to
    index table the lookup yields no index, and [getValidator] resolves
    to [null]: no error is raised and no validator record is produced. *)
Theorem getValidator_unknown_returns_null
  (head : HeadStateContext) (pk : BLSPubkey) :
  pk ∉ dom (pubkey2index (epochCtx head)) →
  pubkey2index (epochCtx head) !! pk = None ∧
  getValidator head pk = Return None ∧
  (∀ e, getValidator head pk ≠ Throw e) ∧
  (∀ r, getValidator head pk ≠ Return (Some r)).
Proof.
  intros Hdom. apply not_elem_of_dom in Hdom.
  rewrite (getValidator_unknown _ _ Hdom).
  split; [done|]. split; [done|]. split; intros x; discriminate.
Qed.

Lemma getValidator_unknown_returns_null_witness :
  (pk1 ∉ dom (pubkey2index (epochCtx head0))) ∧
  getValidator head0 pk1 = Return None.
Proof.
  assert (H : pk1 ∉ dom (pubkey2index (epochCtx head0))).
  { apply not_elem_of_dom. by vm_compute. }
  split; [exact H|].
  exact (proj1 (proj2 (getValidator_unknown_returns_null head0 pk1 H))).
Defined.

(** C8: [getValidator] resolves to a validator record exactly when the
    table maps the key to a non-zero index (the record then holds the
    entries of the validator and balance arrays at that index); for a key
    mapped to index 0 it resolves to [null] although the key is present,
    and for a key that is not in the table it resolves to [null] too. *)
Theorem getValidator_truthiness
  (head : HeadStateContext) (pk : BLSPubkey) :
  (∀ r, getValidator head pk = Return (Some r) ↔
        ∃ i, pubkey2index (epochCtx head) !! pk = Some i ∧ i ≠ 0%nat ∧
             r = {| r_validator := validators (state head) !! i;
                    r_balance := balances (state head) !! i;
                    r_pubkey := pk;
                    r_index := i |}) ∧
  (pubkey2index (epochCtx head) !! pk = Some 0%nat ↔
     pk ∈ dom (pubkey2index (epochCtx head)) ∧
     getValidator head pk = Return None) ∧
  (pubkey2index (epochCtx head) !! pk = None ↔
     pk ∉ dom (pubkey2index (epochCtx head))) ∧
  (pk ∉ dom (pubkey2index (epochCtx head)) →
     getValidator head pk = Return None).
Proof.
  unfold getValidator.
  destruct (pubkey2index (epochCtx head) !! pk) as [[|i]|] eqn:E; simpl.
  - split; [|split; [|split]].
    + intros r. split; [discriminate|]. intros (i & Hi & Hne & _). congruence.
    + split; [|done]. intros _. split; [|done]. apply elem_of_dom. by eexists.
    + split; [discriminate|]. intros H. apply not_elem_of_dom in H. congruence.
    + done.
  - split; [|split; [|split]].
    + intros r. split.
      * intros [= <-]. exists (S i). split; [done|]. split; [lia|done].
      * intros (j & [= <-] & _ & ->). done.
    + split; [discriminate|]. intros [_ H]. discriminate.
    + split; [discriminate|]. intros H. apply not_elem_of_dom in H. congruence.
    + intros H. apply not_elem_of_dom in H. congruence.
  - split; [|split; [|split]].
    + intros r. split; [discriminate|]. intros (i & Hi & _). discriminate.
    + split; [discriminate|]. intros [H _]. apply elem_of_dom in H as [x Hx]. congruence.
    + split; [|done]. intros _. by apply not_elem_of_dom.
    + done.
Qed.

(** The validator stored at index 0 of [head0] is not found. *)
Example getValidator_index_zero :
  pubkey2index (epochCtx head0) !! pk0 = Some 0%nat ∧
  getValidator head0 pk0 = Return None.
Proof. split; by vm_compute. Qed.

End BeaconApi.

(** ** Sequencing of calls that may throw *)

#[global] Instance Completion_ret : MRet Completion := λ A a, Return a.
#[global] Instance Completion_bind : MBind Completion := λ A B f c,
  match c with
  | Return a => f a
  | Throw e => Throw e
  end.

(** [xs.map(f)] for an [f] that may throw: the first throw ends the
    call. *)
Fixpoint mapC {A B : Type} (f : A → Completion B) (xs : list A)
  : Completion (list B) :=
  match xs with
  | [] => Return []
  | x :: xs' => y ← f x; ys ← mapC f xs'; Return (y :: ys)
  end.

Lemma mapC_roundtrip {A B : Type} (enc : A → B) (dec : B → Completion A)
  (xs : list A) :
  (∀ x, dec (enc x) = Return x) → mapC dec (map enc xs) = Return xs.
Proof.
  intros Hdec. induction xs as [|x xs IH]; simpl; [done|].
  rewrite Hdec. simpl. rewrite IH. done.
Qed.

(** ** Hex strings

    The codec of the execution engine goes through four helpers that are
    not part of the sources: [toHexString] and [fromHexString] of
    [@chainsafe/ssz], [numberToHex] and [hexToNumber] of
    [eth1/provider/utils]. This is a model of them: [toHexString] writes
    two lower-case digits per byte after ["0x"]; [fromHexString] drops a
    leading ["0x"], throws on an odd number of characters and reads each
    pair with [parseInt(pair, 16)] into a [Uint8Array]; [numberToHex] is
    ["0x" + n.toString(16)] and [hexToNumber] is [parseInt(hex, 16)],
    which rounds what it reads to the nearest [number]. *)

Module Hex.

(** A JavaScript [number] as [parseInt] may return it: an integer,
    [Infinity] or [-Infinity], or [NaN]. *)
Inductive number :=
  | Int (z : Z)
  | Infinity (negative : bool)
  | NaN.

(** ["0x"]-prefixed hex strings: [DATA] and [QUANTITY]. *)
Definition HexStr := string.

(** The digit of a value below sixteen: ['0'] is character 48 and ['a']
    is character 97. *)
Definition hexChar (d : N) : ascii :=
  ascii_of_N (if (d <? 10)%N then 48 + d else 87 + d)%N.

(** The value of a hex digit, either case. *)
Definition hexVal (c : ascii) : option N :=
  let code := N_of_ascii c in
  if (48 <=? code)%N && (code <=? 57)%N then Some (code - 48)%N
  else if (97 <=? code)%N && (code <=? 102)%N then Some (code - 87)%N
  else if (65 <=? code)%N && (code <=? 70)%N then Some (code - 55)%N
  else None.

(** The white space [parseInt] skips, among the first 128 characters. *)
Definition isWhiteSpace (c : ascii) : bool :=
  bool_decide (c ∈ [" "; "009"; "010"; "011"; "012"; "013"]%char).

Fixpoint trimStart (s : string) : string :=
  match s with
  | String c s' => if isWhiteSpace c then trimStart s' else s
  | EmptyString => s
  end.

(** The longest run of hex digits at the start of [s], read as a
    number; [acc] is [None] until a digit is read. *)
Fixpoint parseDigits (s : string) (acc : option N) : option N :=
  match s with
  | String c s' =>
      match hexVal c with
      | Some d => parseDigits s' (Some (16 * default 0 acc + d)%N)
      | None => acc
      end
  | EmptyString => acc
  end.

Definition stripSign (s : string) : bool * string :=
  match s with
  | String "-" s' => (true, s')
  | String "+" s' => (false, s')
  | _ => (false, s)
  end.

Definition strip0x (s : string) : string :=
  match s with
  | String "0" (String "x" s') => s'
  | String "0" (String "X" s') => s'
  | _ => s
  end.

(** The [number] nearest to a non-negative integer, ties to even: an
    integer below [2 ^ 53] is a number itself, a larger one keeps its 53
    leading bits, and past the largest number there is [Infinity], here
    [None]. *)
Definition roundToNumber (n : N) : option N :=
  if (n <? 2 ^ 53)%N then Some n
  else
    let e := (N.log2 n - 52)%N in
    let q := N.shiftr n e in
    let r := N.land n (N.ones e) in
    let half := (2 ^ (e - 1))%N in
    let q' := if (half <? r)%N || ((r =? half)%N && N.odd q) then (q + 1)%N else q in
    let v := N.shiftl q' e in
    if (v <? 2 ^ 1024)%N then Some v else None.

(** [parseInt(s, 16)] *)
Definition parseInt16 (s : string) : number :=
  let '(neg, s1) := stripSign (trimStart s) in
  match parseDigits (strip0x s1) None with
  | None => NaN
  | Some n =>
      match roundToNumber n with
      | Some v => Int (if neg then - Z.of_N v else Z.of_N v)
      | None => Infinity neg
      end
  end.

(** The hex digits of [n], least significant first; [fuel] bounds their
    number. *)
Fixpoint digitsLE (fuel : nat) (n : N) : list N :=
  match fuel with
  | O => []
  | S fuel' =>
      (n mod 16)%N ::
      (if (n / 16 =? 0)%N then [] else digitsLE fuel' (n / 16)%N)
  end.

Definition stringOfDigits (ds : list N) : string :=
  string_of_list_ascii (map hexChar ds).

(** [n.toString(16)] *)
Definition toString16N (n : N) : string :=
  stringOfDigits (rev (digitsLE (S (N.to_nat (N.log2 n))) n)).

Definition toString16 (x : number) : string :=
  match x with
  | Int z =>
      if (z <? 0)%Z then String "-" (toString16N (Z.to_N (- z)))
      else toString16N (Z.to_N z)
  | Infinity negative => if negative then "-Infinity" else "Infinity"
  | NaN => "NaN"
  end.

Definition numberToHex (x : number) : HexStr := "0x" +:+ toString16 x.
Definition hexToNumber (hex : HexStr) : number := parseInt16 hex.

(** The numbers [numberToHex] and [hexToNumber] carry exactly: the
    non-negative safe integers. *)
Definition representable (x : number) : Prop :=
  match x with
  | Int z => (0 ≤ z < 2 ^ 53)%Z
  | Infinity _ | NaN => False
  end.

Definition byteHex (b : Byte.byte) : string :=
  String (hexChar (Byte.to_N b / 16)) (String (hexChar (Byte.to_N b mod 16)) "").

Fixpoint concatHex (bs : Bytes) : string :=
  match bs with
  | [] => ""
  | b :: bs' =>
      String (hexChar (Byte.to_N b / 16))
        (String (hexChar (Byte.to_N b mod 16)) (concatHex bs'))
  end.

Definition toHexString (bs : Bytes) : HexStr := "0x" +:+ concatHex bs.

(** Storing a number in a [Uint8Array]: modulo 256, [NaN] and the
    infinities as 0. *)
Definition toUint8 (x : number) : Byte.byte :=
  match x with
  | Int z => default x00 (Byte.of_N (Z.to_N (z mod 256)))
  | Infinity _ | NaN => x00
  end.

Fixpoint hexPairs (s : string) : list string :=
  match s with
  | String a (String b s') => String a (String b "") :: hexPairs s'
  | _ => []
  end.

Definition fromHexString (hex : HexStr) : Completion Bytes :=
  let hex' :=
    match hex with
    | String "0" (String "x" s') => s'
    | _ => hex
    end in
  if Nat.even (String.length hex') then
    Return (map (λ pair, toUint8 (parseInt16 pair)) (hexPairs hex'))
  else Throw (ErrorMessage "Expected an even number of characters").

(** *** The helpers are inverse to each other *)

Definition valueLE (ds : list N) : N :=
  fold_right (λ d acc, 16 * acc + d)%N 0%N ds.

Lemma hexVal_hexChar (d : N) : (d < 16)%N → hexVal (hexChar d) = Some d.
Proof.
  intros Hd.
  assert (H : d ∈ (N.of_nat <$> seq 0 16)).
  { apply list_elem_of_fmap. exists (N.to_nat d). split; [lia|].
    apply elem_of_seq. lia. }
  simpl in H. repeat (apply elem_of_cons in H as [->|H]; [reflexivity|]).
  by apply elem_of_nil in H.
Qed.

Lemma parseDigits_digits (ds : list N) (a : N) :
  Forall (λ d, d < 16)%N ds →
  parseDigits (stringOfDigits ds) (Some a)
  = Some (fold_left (λ acc d, 16 * acc + d)%N ds a).
Proof.
  intros Hds. revert a. induction Hds as [|d ds Hd _ IH]; intros a; [done|].
  unfold stringOfDigits in *. simpl. rewrite (hexVal_hexChar d Hd). simpl.
  apply IH.
Qed.

Lemma digitsLE_lt16 (fuel : nat) (n : N) :
  Forall (λ d, d < 16)%N (digitsLE fuel n).
Proof.
  revert n. induction fuel as [|fuel IH]; intros n; simpl; [constructor|].
  constructor; [apply N.mod_lt; lia|].
  destruct (n / 16 =? 0)%N; [constructor|apply IH].
Qed.

Lemma valueLE_digitsLE (fuel : nat) (n : N) :
  (n < 2 ^ N.of_nat fuel)%N → valueLE (digitsLE fuel n) = n.
Proof.
  revert n. induction fuel as [|fuel IH]; intros n Hn.
  - simpl in *. lia.
  - cbn [digitsLE]. pose proof (N.div_mod n 16 ltac:(lia)) as Hdm.
    destruct (n / 16 =? 0)%N eqn:E.
    + apply N.eqb_eq in E. simpl. lia.
    + cbn [valueLE fold_right]. fold (valueLE (digitsLE fuel (n / 16))).
      rewrite IH; [lia|].
      rewrite Nat2N.inj_succ, N.pow_succ_r' in Hn.
      apply N.Div0.div_lt_upper_bound. lia.
Qed.

Lemma lt_pow2_log2 (n : N) : (n < 2 ^ N.of_nat (S (N.to_nat (N.log2 n))))%N.
Proof.
  rewrite Nat2N.inj_succ, N2Nat.id.
  destruct (N.eq_dec n 0%N) as [->|Hn]; [reflexivity|].
  apply N.log2_spec. lia.
Qed.

Lemma parseDigits_toString16N (n : N) :
  parseDigits (toString16N n) None = Some n.
Proof.
  unfold toString16N.
  pose proof (valueLE_digitsLE _ n (lt_pow2_log2 n)) as Hv.
  pose proof (digitsLE_lt16 (S (N.to_nat (N.log2 n))) n) as Hlt.
  apply Forall_rev in Hlt.
  assert (Hne : rev (digitsLE (S (N.to_nat (N.log2 n))) n) ≠ []).
  { simpl. intros H. by apply app_eq_nil in H as [_ ?]. }
  unfold valueLE in Hv. rewrite <- (rev_involutive (digitsLE _ n)) in Hv.
  rewrite fold_left_rev_right in Hv.
  destruct (rev (digitsLE (S (N.to_nat (N.log2 n))) n)) as [|d ds]; [done|].
  apply Forall_cons in Hlt as [Hd Hds].
  unfold stringOfDigits. cbn [map string_of_list_ascii parseDigits].
  rewrite (hexVal_hexChar d Hd). cbn [default].
  change (parseDigits (stringOfDigits ds) (Some (16 * 0 + d)%N) = Some n).
  rewrite (parseDigits_digits ds _ Hds). f_equal.
  exact Hv.
Qed.

Lemma roundToNumber_safe (n : N) : (n < 2 ^ 53)%N → roundToNumber n = Some n.
Proof.
  intros Hn. unfold roundToNumber.
  by destruct (N.ltb_spec n (2 ^ 53)) as [_|?]; [|lia].
Qed.

Lemma hexToNumber_numberToHex (x : number) :
  representable x → hexToNumber (numberToHex x) = x.
Proof.
  destruct x as [z| |]; [|done..]. intros [Hz Hsafe].
  unfold hexToNumber, numberToHex, toString16.
  destruct (Z.ltb_spec z 0) as [?|_]; [lia|].
  change ("0x" +:+ toString16N (Z.to_N z))
    with (String "0" (String "x" (toString16N (Z.to_N z)))).
  unfold parseInt16. cbn [trimStart]. change (isWhiteSpace "0") with false.
  cbn [stripSign strip0x]. rewrite parseDigits_toString16N.
  rewrite roundToNumber_safe by (change (2 ^ 53)%N with (Z.to_N (2 ^ 53)); lia).
  f_equal. lia.
Qed.

Lemma toUint8_byteHex (b : Byte.byte) : toUint8 (parseInt16 (byteHex b)) = b.
Proof. destruct b; vm_compute; reflexivity. Qed.

Lemma length_concatHex (bs : Bytes) :
  String.length (concatHex bs) = (2 * length bs)%nat.
Proof. induction bs as [|b bs IH]; simpl; [done|]. rewrite IH. lia. Qed.

Lemma hexPairs_concatHex (bs : Bytes) :
  hexPairs (concatHex bs) = map byteHex bs.
Proof. induction bs as [|b bs IH]; simpl; [done|]. by rewrite IH. Qed.

Lemma fromHexString_toHexString (bs : Bytes) :
  fromHexString (toHexString bs) = Return bs.
Proof.
  unfold toHexString, fromHexString.
  change ("0x" +:+ concatHex bs) with (String "0" (String "x" (concatHex bs))).
  cbv iota beta. rewrite length_concatHex, Nat.even_mul. simpl.
  rewrite hexPairs_concatHex, map_map. f_equal.
  induction bs as [|b bs IH]; simpl; [done|].
  by rewrite toUint8_byteHex, IH.
Qed.

(** What a number outside the representable ones is read back as. *)
Example hexToNumber_numberToHex_negative :
  hexToNumber (numberToHex (Int (-26))) = NaN.
Proof. reflexivity. Qed.

(** Above [2 ^ 53] the digits are read to the nearest number, ties to
    even: [2 ^ 53 + 1] is read as [2 ^ 53], [2 ^ 53 + 3] as [2 ^ 53 + 4],
    and 257 digits [f] as [Infinity]. *)
Example hexToNumber_rounds :
  hexToNumber "0x20000000000001" = Int 9007199254740992 ∧
  hexToNumber "0x20000000000003" = Int 9007199254740996 ∧
  hexToNumber "0x20000000000002" = Int 9007199254740994 ∧
  hexToNumber ("0x" +:+ string_of_list_ascii (replicate 257 "f"%char)) = Infinity false.
Proof. vm_compute. repeat split. Qed.

End Hex.

(** ** The execution-engine JSON-RPC codec *)

Module ExecutionEngine.


(** [merge.ExecutionPayload] *)
Record ExecutionPayload := mkExecutionPayload {
  parentHash : Bytes;
  coinbase : Bytes;
  stateRoot : Bytes;
  receiptRoot : Bytes;
  logsBloom : Bytes;
  random : Bytes;
  blockNumber : Hex.number;
  gasLimit : Hex.number;
  gasUsed : Hex.number;
  timestamp : Hex.number;
  extraData : Bytes;
  baseFeePerGas : Bytes;
  blockHash : Bytes;
  transactions : list Bytes
}.

(** [ExecutionPayloadRpc] *)
Record ExecutionPayloadRpc := mkExecutionPayloadRpc {
  rpc_parentHash : Hex.HexStr;
  rpc_coinbase : Hex.HexStr;
  rpc_stateRoot : Hex.HexStr;
  rpc_receiptRoot : Hex.HexStr;
  rpc_logsBloom : Hex.HexStr;
  rpc_random : Hex.HexStr;
  rpc_blockNumber : Hex.HexStr;
  rpc_gasLimit : Hex.HexStr;
  rpc_gasUsed : Hex.HexStr;
  rpc_timestamp : Hex.HexStr;
  rpc_extraData : Hex.HexStr;
  rpc_baseFeePerGas : Hex.HexStr;
  rpc_blockHash : Hex.HexStr;
  rpc_transactions : list Hex.HexStr
}.


Section Codec.
(** [toHexString] and [fromHexString] are the ones of
    [@chainsafe/ssz]; [numberToHex] and [hexToNumber] those of
    [eth1/provider/utils]. [fromHexString] throws on a malformed
    string, [hexToNumber] does not. *)
Variable toHexString : Bytes → Hex.HexStr.
Variable fromHexString : Hex.HexStr → Completion Bytes.
Variable numberToHex : Hex.number → Hex.HexStr.
Variable hexToNumber : Hex.HexStr → Hex.number.
(** The numbers the hex encoding of [QUANTITY] can carry. *)
Variable representable : Hex.number → Prop.

Definition serializeExecutionPayload (data : ExecutionPayload)
  : ExecutionPayloadRpc :=
  {| rpc_parentHash := toHexString (parentHash data);
     rpc_coinbase := toHexString (coinbase data);
     rpc_stateRoot := toHexString (stateRoot data);
     rpc_receiptRoot := toHexString (receiptRoot data);
     rpc_logsBloom := toHexString (logsBloom data);
     rpc_random := toHexString (random data);
     rpc_blockNumber := numberToHex (blockNumber data);
     rpc_gasLimit := numberToHex (gasLimit data);
     rpc_gasUsed := numberToHex (gasUsed data);
     rpc_timestamp := numberToHex (timestamp data);
     rpc_extraData := toHexString (extraData data);
     rpc_baseFeePerGas := toHexString (baseFeePerGas data);
     rpc_blockHash := toHexString (blockHash data);
     rpc_transactions := map toHexString (transactions data) |}.

(** The fields of the object literal are evaluated in the order they
    are written; the first [fromHexString] that throws ends the
    call. *)
Definition parseExecutionPayload (data : ExecutionPayloadRpc)
  : Completion ExecutionPayload :=
  parentHash' ← fromHexString (rpc_parentHash data);
  coinbase' ← fromHexString (rpc_coinbase data);
  stateRoot' ← fromHexString (rpc_stateRoot data);
  receiptRoot' ← fromHexString (rpc_receiptRoot data);
  logsBloom' ← fromHexString (rpc_logsBloom data);
  random' ← fromHexString (rpc_random data);
  let blockNumber' := hexToNumber (rpc_blockNumber data) in
  let gasLimit' := hexToNumber (rpc_gasLimit data) in
  let gasUsed' := hexToNumber (rpc_gasUsed data) in
  let timestamp' := hexToNumber (rpc_timestamp data) in
  extraData' ← fromHexString (rpc_extraData data);
  baseFeePerGas' ← fromHexString (rpc_baseFeePerGas data);
  blockHash' ← fromHexString (rpc_blockHash data);
  transactions' ← mapC fromHexString (rpc_transactions data);
  Return {| parentHash := parentHash';
            coinbase := coinbase';
            stateRoot := stateRoot';
            receiptRoot := receiptRoot';
            logsBloom := logsBloom';
            random := random';
            blockNumber := blockNumber';
            gasLimit := gasLimit';
            gasUsed := gasUsed';
            timestamp := timestamp';
            extraData := extraData';
            baseFeePerGas := baseFeePerGas';
            blockHash := blockHash';
            transactions := transactions' |}.

(** The numeric fields of a payload. *)
Definition numericFields (p : ExecutionPayload) : list Hex.number :=
  [blockNumber p; gasLimit p; gasUsed p; timestamp p].

Hypothesis fromHex_toHex :
  ∀ b : Bytes, fromHexString (toHexString b) = Return b.
Hypothesis hexToNumber_left_inverse :
  ∀ n : Hex.number, representable n → hexToNumber (numberToHex n) = n.

(** C10: [parseExecutionPayload] is a left inverse of
    [serializeExecutionPayload]: for a payload whose four numeric fields
    are representable in the hex encoding, parsing the serialized
    payload returns (it does not throw) the payload, field for field. *)
Theorem parse_serializeExecutionPayload (p : ExecutionPayload) :
  Forall representable (numericFields p) →
  parseExecutionPayload (serializeExecutionPayload p) = Return p.
Proof.
  intros Hnum. unfold numericFields in Hnum.
  apply Forall_cons in Hnum as [Hbn Hnum].
  apply Forall_cons in Hnum as [Hgl Hnum].
  apply Forall_cons in Hnum as [Hgu Hnum].
  apply Forall_cons in Hnum as [Hts _].
  destruct p. unfold parseExecutionPayload, serializeExecutionPayload.
  simpl in *.
  rewrite !fromHex_toHex. simpl.
  rewrite (mapC_roundtrip toHexString fromHexString)
    by exact fromHex_toHex.
  simpl.
  rewrite (hexToNumber_left_inverse _ Hbn), (hexToNumber_left_inverse _ Hgl),
    (hexToNumber_left_inverse _ Hgu), (hexToNumber_left_inverse _ Hts).
  reflexivity.
Qed.

(** *** Malformed input *)



End Codec.

(** A payload and what it is serialized to. *)
Definition payload0 : ExecutionPayload :=
  {| parentHash := [x01; xab]; coinbase := [xff]; stateRoot := [];
     receiptRoot := [x00]; logsBloom := [x10; x0f]; random := [x7f];
     blockNumber := Hex.Int 255; gasLimit := Hex.Int 30000000; gasUsed := Hex.Int 0;
     timestamp := Hex.Int 1633000000; extraData := [];
     baseFeePerGas := [x00; x07]; blockHash := [xde; xad];
     transactions := [[x01; x02]; []; [xfe]] |}.

Lemma parse_serializeExecutionPayload_witness :
  Forall Hex.representable (numericFields payload0) ∧
  parseExecutionPayload Hex.fromHexString Hex.hexToNumber
    (serializeExecutionPayload Hex.toHexString Hex.numberToHex payload0)
  = Return payload0.
Proof.
  assert (H : Forall Hex.representable (numericFields payload0)).
  { repeat constructor; simpl; lia. }
  split; [exact H|].
  exact (parse_serializeExecutionPayload Hex.toHexString Hex.fromHexString
           Hex.numberToHex Hex.hexToNumber Hex.representable
           Hex.fromHexString_toHexString Hex.hexToNumber_numberToHex payload0 H).
Defined.

End ExecutionEngine.

(** ** [AttestationService] *)

Module AttestationService.

Record AttestationData := mkAttestationData {
  ad_slot : Slot;
  ad_index : CommitteeIndex;
  ad_beaconBlockRoot : Root;
  ad_source : Checkpoint;
  ad_target : Checkpoint
}.
Arguments mkAttestationData _%_Z _%_Z _ _ _.

Record Attestation := mkAttestation {
  aggregationBits : list bool;
  data : AttestationData;
  signature : BLSSignature
}.

Record Fork := mkFork {
  previousVersion : Bytes;
  currentVersion : Bytes;
  fork_epoch : Epoch
}.
Arguments mkFork _ _ _%_Z.

Inductive DomainType :=
  | BEACON_ATTESTER
  | SELECTION_PROOF
  | AGGREGATE_AND_PROOF.

(** [IAttestationSearchOptions]: bounds on the target epoch. *)
Record IAttestationSearchOptions := mkOptions {
  gte : option Epoch;
  lt : option Epoch
}.

(** The target epoch [e] is within the bounds. *)
Definition inRange (opts : IAttestationSearchOptions) (e : Epoch) : bool :=
  match gte opts with Some lo => (lo <=? e)%Z | None => true end &&
  match lt opts with Some hi => (e <? hi)%Z | None => true end.

(** The part of [IValidatorDB] the service calls. The key is
    [this.publicKeys[attesterIndex]], which is [undefined] when the index
    is not one of the array. *)
Class IValidatorDB (DB : Type) := {
  getAttestations : DB → option BLSPubkey → IAttestationSearchOptions → list Attestation;
  setAttestation : DB → option BLSPubkey → Attestation → DB;
  deleteAttestations : DB → option BLSPubkey → list Attestation → DB
}.

(** A number in a template literal. *)
Definition showNumber (z : Z) : string :=
  DecimalString.NilZero.string_of_int (Z.to_int z).

(** [arr[i]] for a JavaScript number [i]. *)
Definition index {A : Type} (arr : list A) (i : Z) : option A :=
  if (i <? 0)%Z then None else arr !! Z.to_nat i.

(** What the service does to the world besides the database: log lines
    (kept by their first words) and signatures made with a private key. *)
Inductive Event :=
  | EvInfo (msg : string)
  | EvSign (attesterIndex : Z) (signingRoot : Bytes).

Definition isSign (ev : Event) : bool :=
  match ev with
  | EvSign _ _ => true
  | EvInfo _ => false
  end.

Section Service.
Context {DB : Type} `{!IValidatorDB DB}.
Variable PrivateKey : Type.
(** [this.provider.validator.produceAttestation], awaited. *)
Variable produceAttestation :
  option BLSPubkey → CommitteeIndex → Slot → Completion Attestation.
(** From [@chainsafe/lodestar-beacon-state-transition], at the service's
    [config]. *)
Variable isSlashableAttestationData : AttestationData → AttestationData → bool.
Variable getDomain : Fork → Root → DomainType → Epoch → Bytes.
Variable computeSigningRoot : AttestationData → Bytes → Bytes.
(** [privateKey.signMessage(root).toBytesCompressed()] *)
Variable signMessage : PrivateKey → Bytes → BLSSignature.

(** The fields of the service. *)
Variable privateKeys : list PrivateKey.
Variable publicKeys : list BLSPubkey.

Record World := mkWorld {
  db : DB;
  events : list Event
}.

(** A method of the service: it reads and writes the world and returns
    or throws. *)
Definition M (A : Type) : Type := World → Completion A * World.

#[local] Instance M_ret : MRet M := λ A a w, (Return a, w).
#[local] Instance M_bind : MBind M := λ A B f m w,
  match m w with
  | (Return a, w') => f a w'
  | (Throw e, w') => (Throw e, w')
  end.

Definition throw {A : Type} (e : Error) : M A := λ w, (Throw e, w).
Definition emit (ev : Event) : M unit :=
  λ w, (Return tt, mkWorld (db w) (events w ++ [ev])).
Definition dbGet (pk : option BLSPubkey) (opts : IAttestationSearchOptions)
  : M (list Attestation) :=
  λ w, (Return (getAttestations (db w) pk opts), w).
Definition dbSet (pk : option BLSPubkey) (a : Attestation) : M unit :=
  λ w, (Return tt, mkWorld (setAttestation (db w) pk a) (events w)).
Definition dbDelete (pk : option BLSPubkey) (l : list Attestation) : M unit :=
  λ w, (Return tt, mkWorld (deleteAttestations (db w) pk l) (events w)).

(** [e.message = prefix + e.message; throw e] *)
Definition prefixMessage (prefix : string) (e : Error) : Error :=
  match e with
  | ErrorMessage msg => ErrorMessage (prefix +:+ msg)
  | _ => e
  end.

(** [potentialAttestationConflicts.some(...)]: stops at the first
    attestation the new data is slashable against, and logs it. *)
Fixpoint someConflict (other : AttestationData) (l : list Attestation) : M bool :=
  match l with
  | [] => mret false
  | attestation :: l' =>
      let result := isSlashableAttestationData (data attestation) other in
      if result then emit (EvInfo "conflict");; mret true
      else someConflict other l'
  end.

Definition isConflictingAttestation (attesterIndex : Z) (other : AttestationData)
  : M bool :=
  potentialAttestationConflicts ←
    dbGet (index publicKeys attesterIndex)
      {| gte := Some (cp_epoch (ad_target other)); lt := None |};
  someConflict other potentialAttestationConflicts.

Definition storeAttestation (attesterIndex : Z) (attestation : Attestation)
  : M unit :=
  dbSet (index publicKeys attesterIndex) attestation;;
  unusedAttestations ←
    dbGet (index publicKeys attesterIndex)
      {| gte := Some 0%Z; lt := Some (cp_epoch (ad_target (data attestation))) |};
  dbDelete (index publicKeys attesterIndex) unusedAttestations.

(** [this.privateKeys[attesterIndex].signMessage(signingRoot)]: a
    [TypeError] when there is no such key. *)
Definition sign (attesterIndex : Z) (signingRoot : Bytes) : M BLSSignature :=
  match index privateKeys attesterIndex with
  | Some sk =>
      emit (EvSign attesterIndex signingRoot);;
      mret (signMessage sk signingRoot)
  | None => throw TypeError
  end.

Definition conflictError (d : AttestationData) : Error :=
  ErrorMessage
    ("Avoided signing conflicting attestation! " +:+
     "Source epoch: " +:+ showNumber (cp_epoch (ad_source d)) +:+ ", " +:+
     "Target epoch: " +:+ showNumber (cp_epoch (ad_target d))).

Definition createAttestation (attesterIndex : Z) (slot : Slot)
  (committeeIndex : CommitteeIndex) (fork : Fork) (genesisValidatorsRoot : Root)
  : M Attestation :=
  attestation ←
    match produceAttestation (index publicKeys attesterIndex) committeeIndex slot with
    | Return a => mret a
    | Throw e =>
        throw (prefixMessage
                 ("Failed to obtain attestation at slot " +:+ showNumber slot +:+
                  " and committee " +:+ showNumber committeeIndex +:+ ": ") e)
    end;
  conflicting ← isConflictingAttestation attesterIndex (data attestation);
  if conflicting : bool then
    throw (conflictError (data attestation))
  else
    let domain :=
      getDomain fork genesisValidatorsRoot BEACON_ATTESTER
        (cp_epoch (ad_target (data attestation))) in
    let signingRoot := computeSigningRoot (data attestation) domain in
    sig ← sign attesterIndex signingRoot;
    let attestation' :=
      {| aggregationBits := aggregationBits attestation;
         data := data attestation;
         signature := sig |} in
    storeAttestation attesterIndex attestation';;
    emit (EvInfo "Signed new attestation");;
    mret attestation'.

(** An attestation is stored under a key when an unbounded search
    returns it. *)
Definition stored (d : DB) (pk : option BLSPubkey) (a : Attestation) : Prop :=
  a ∈ getAttestations d pk {| gte := None; lt := None |}.

(** The contract of [getAttestations]: a bounded search returns the stored
    attestations whose target epoch is within the bounds. *)
Definition searchIsFilter : Prop :=
  ∀ d pk opts a,
    a ∈ getAttestations d pk opts ↔
    stored d pk a ∧ inRange opts (cp_epoch (ad_target (data a))) = true.


Lemma someConflict_hit (other : AttestationData) (l : list Attestation) (w : World) :
  (∃ a, a ∈ l ∧ isSlashableAttestationData (data a) other = true) →
  someConflict other l w
  = (Return true, mkWorld (db w) (events w ++ [EvInfo "conflict"])).
Proof.
  induction l as [|b l IH]; intros (a & Hin & Ha).
  - by apply elem_of_nil in Hin.
  - cbn [someConflict].
    destruct (isSlashableAttestationData (data b) other) eqn:Hb; [reflexivity|].
    apply IH. exists a. split; [|done].
    apply elem_of_cons in Hin as [->|Hin]; [congruence|done].
Qed.

Lemma someConflict_miss (other : AttestationData) (l : list Attestation) (w : World) :
  (∀ a, a ∈ l → isSlashableAttestationData (data a) other = false) →
  someConflict other l w = (Return false, w).
Proof.
  induction l as [|b l IH]; intros Hall; [reflexivity|].
  cbn [someConflict]. rewrite (Hall b) by apply list_elem_of_here.
  apply IH. intros a Ha. apply Hall. by apply list_elem_of_further.
Qed.

(** C9: when the attestation data the beacon node produced is slashable
    (per [isSlashableAttestationData]) against an attestation stored for
    the validator with a target epoch at or above the new target epoch,
    [createAttestation] throws; the database is what it was and no
    signature was made: the only effect is the log line of the conflict. *)
Theorem createAttestation_refuses_slashable
  (attesterIndex : Z) (slot : Slot) (committeeIndex : CommitteeIndex)
  (fork : Fork) (genesisValidatorsRoot : Root)
  (attestation : Attestation) (w : World) :
  searchIsFilter →
  produceAttestation (index publicKeys attesterIndex) committeeIndex slot
    = Return attestation →
  (∃ a, stored (db w) (index publicKeys attesterIndex) a ∧
        (cp_epoch (ad_target (data attestation))
           ≤ cp_epoch (ad_target (data a)))%Z ∧
        isSlashableAttestationData (data a) (data attestation) = true) →
  ∃ w',
    createAttestation attesterIndex slot committeeIndex fork genesisValidatorsRoot w
      = (Throw (conflictError (data attestation)), w') ∧
    db w' = db w ∧
    filter isSign (events w') = filter isSign (events w) ∧
    events w' = (events w ++ [EvInfo "conflict"])%list.
Proof.
  intros Hsearch Hproduced (a & Hstored & Hepoch & Hslashable).
  exists (mkWorld (db w) (events w ++ [EvInfo "conflict"])).
  split; [|split; [done|split; [|done]]].
  - unfold createAttestation. rewrite Hproduced.
    unfold mbind, M_bind at 1. cbn [mret M_ret].
    unfold mbind, M_bind at 1.
    unfold isConflictingAttestation, mbind, M_bind at 1. cbn [dbGet].
    rewrite someConflict_hit; [reflexivity|].
    exists a. split; [|done]. apply Hsearch. split; [done|].
    unfold inRange. cbn [gte lt]. rewrite andb_true_r. by apply Z.leb_le.
  - cbn [events]. rewrite filter_app. cbn. by rewrite app_nil_r.
Qed.

(** Without a conflict, and with a key at the index, the attestation is
    signed and stored. *)
Lemma createAttestation_signs
  (attesterIndex : Z) (slot : Slot) (committeeIndex : CommitteeIndex)
  (fork : Fork) (genesisValidatorsRoot : Root)
  (attestation : Attestation) (sk : PrivateKey) (w : World) :
  produceAttestation (index publicKeys attesterIndex) committeeIndex slot
    = Return attestation →
  (∀ a, a ∈ getAttestations (db w) (index publicKeys attesterIndex)
              {| gte := Some (cp_epoch (ad_target (data attestation))); lt := None |} →
        isSlashableAttestationData (data a) (data attestation) = false) →
  index privateKeys attesterIndex = Some sk →
  ∃ signed w',
    createAttestation attesterIndex slot committeeIndex fork genesisValidatorsRoot w
      = (Return signed, w') ∧
    data signed = data attestation ∧
    filter isSign (events w')
      = (filter isSign (events w) ++
         [EvSign attesterIndex
            (computeSigningRoot (data attestation)
               (getDomain fork genesisValidatorsRoot BEACON_ATTESTER
                  (cp_epoch (ad_target (data attestation)))))])%list.
Proof.
  intros Hproduced Hnone Hsk.
  unfold createAttestation. rewrite Hproduced.
  unfold mbind, M_bind at 1. cbn [mret M_ret].
  unfold mbind, M_bind at 1.
  unfold isConflictingAttestation, mbind, M_bind at 1. cbn [dbGet].
  rewrite someConflict_miss by exact Hnone.
  unfold sign. rewrite Hsk.
  eexists _, _. split; [reflexivity|]. split; [reflexivity|].
  cbn. rewrite !filter_app. cbn. by rewrite app_nil_r.
Qed.

(** *** More of the service *)

Lemma bind_run {A B : Type} (m : M A) (f : A → M B) (w : World) :
  (m ≫= f) w
  = match m w with
    | (Return a, w') => f a w'
    | (Throw e, w') => (Throw e, w')
    end.
Proof. reflexivity. Qed.

Lemma someConflict_existsb (other : AttestationData) (l : list Attestation) (w : World) :
  someConflict other l w
  = if existsb (λ a, isSlashableAttestationData (data a) other) l
    then (Return true, mkWorld (db w) (events w ++ [EvInfo "conflict"]))
    else (Return false, w).
Proof.
  induction l as [|b l IH]; [reflexivity|].
  cbn [someConflict existsb].
  destruct (isSlashableAttestationData (data b) other); [reflexivity|exact IH].
Qed.

(** [isConflictingAttestation] answers [true] exactly when one of the
    attestations the database returns for the validator from the target
    epoch of the new data on is slashable against the new data; it never
    writes to the database, and it logs the conflict exactly when it
    answers [true]. *)
Theorem isConflictingAttestation_spec (attesterIndex : Z) (other : AttestationData)
  (w : World) :
  ∃ (b : bool) (w' : World),
    isConflictingAttestation attesterIndex other w = (Return b, w') ∧
    (b = true ↔
       ∃ a, a ∈ getAttestations (db w) (index publicKeys attesterIndex)
                  {| gte := Some (cp_epoch (ad_target other)); lt := None |} ∧
            isSlashableAttestationData (data a) other = true) ∧
    db w' = db w ∧
    events w' = events w ++ (if b then [EvInfo "conflict"] else []).
Proof.
  unfold isConflictingAttestation. rewrite bind_run. cbn [dbGet].
  rewrite someConflict_existsb.
  destruct (existsb _ _) eqn:E.
  - eexists true, _. split; [reflexivity|]. split; [|done].
    split; [intros _|done].
    apply existsb_exists in E as (a & Hin & Ha).
    exists a. split; [by apply list_elem_of_In|done].
  - eexists false, _. split; [reflexivity|]. split; [|by rewrite app_nil_r].
    split; [done|]. intros (a & Hin & Ha).
    assert (existsb (λ a, isSlashableAttestationData (data a) other)
              (getAttestations (db w) (index publicKeys attesterIndex)
                 {| gte := Some (cp_epoch (ad_target other)); lt := None |}) = true)
      as Htrue.
    { apply existsb_exists. exists a. split; [by apply list_elem_of_In|done]. }
    congruence.
Qed.

(** When the beacon node fails to produce the attestation,
    [createAttestation] throws the node's error with the slot and the
    committee put before its message, and does nothing else: no search of
    the database, no log line, no signature. *)
Theorem createAttestation_provider_failure
  (attesterIndex : Z) (slot : Slot) (committeeIndex : CommitteeIndex)
  (fork : Fork) (genesisValidatorsRoot : Root) (e : Error) (w : World) :
  produceAttestation (index publicKeys attesterIndex) committeeIndex slot = Throw e →
  createAttestation attesterIndex slot committeeIndex fork genesisValidatorsRoot w
  = (Throw (prefixMessage
              ("Failed to obtain attestation at slot " +:+ showNumber slot +:+
               " and committee " +:+ showNumber committeeIndex +:+ ": ") e),
     w).
Proof. intros Hfail. unfold createAttestation. rewrite bind_run, Hfail. reflexivity. Qed.

(** When there is no private key at the index (an index that is not one
    of the key arrays, such as the -1 of a failed [findIndex]), and the
    produced data conflicts with nothing, [createAttestation] throws a
    [TypeError] at the signing step: nothing is signed or stored. *)
Theorem createAttestation_missing_key
  (attesterIndex : Z) (slot : Slot) (committeeIndex : CommitteeIndex)
  (fork : Fork) (genesisValidatorsRoot : Root)
  (attestation : Attestation) (w : World) :
  produceAttestation (index publicKeys attesterIndex) committeeIndex slot
    = Return attestation →
  (∀ a, a ∈ getAttestations (db w) (index publicKeys attesterIndex)
              {| gte := Some (cp_epoch (ad_target (data attestation))); lt := None |} →
        isSlashableAttestationData (data a) (data attestation) = false) →
  index privateKeys attesterIndex = None →
  createAttestation attesterIndex slot committeeIndex fork genesisValidatorsRoot w
  = (Throw TypeError, w).
Proof.
  intros Hproduced Hnone Hkey.
  unfold createAttestation. rewrite bind_run, Hproduced. cbn [mret M_ret].
  rewrite bind_run. unfold isConflictingAttestation. rewrite bind_run. cbn [dbGet].
  rewrite someConflict_miss by exact Hnone.
  rewrite bind_run. unfold sign. rewrite Hkey. reflexivity.
Qed.

(** A signature is made only for data that conflicts with nothing: if a
    call of [createAttestation] leaves a signature behind, the beacon node
    had produced an attestation and no attestation the database returned
    for the validator from its target epoch on was slashable against it. *)
Theorem createAttestation_signature_implies_no_conflict
  (attesterIndex : Z) (slot : Slot) (committeeIndex : CommitteeIndex)
  (fork : Fork) (genesisValidatorsRoot : Root)
  (r : Completion Attestation) (w w' : World) :
  createAttestation attesterIndex slot committeeIndex fork genesisValidatorsRoot w
    = (r, w') →
  filter isSign (events w') ≠ filter isSign (events w) →
  ∃ attestation,
    produceAttestation (index publicKeys attesterIndex) committeeIndex slot
      = Return attestation ∧
    ∀ a, a ∈ getAttestations (db w) (index publicKeys attesterIndex)
               {| gte := Some (cp_epoch (ad_target (data attestation))); lt := None |} →
         isSlashableAttestationData (data a) (data attestation) = false.
Proof.
  intros Hrun Hsigned. unfold createAttestation in Hrun. rewrite bind_run in Hrun.
  destruct (produceAttestation (index publicKeys attesterIndex) committeeIndex slot)
    as [attestation|e] eqn:Hproduced.
  - exists attestation. split; [done|]. intros a Hin.
    destruct (isSlashableAttestationData (data a) (data attestation)) eqn:Hslash; [|done].
    exfalso. cbn [mret M_ret] in Hrun. rewrite bind_run in Hrun.
    unfold isConflictingAttestation in Hrun. rewrite bind_run in Hrun. cbn [dbGet] in Hrun.
    rewrite someConflict_hit in Hrun by (by exists a).
    injection Hrun as _ <-. apply Hsigned. cbn [events].
    rewrite filter_app. cbn. by rewrite app_nil_r.
  - injection Hrun as _ <-. by destruct Hsigned.
Qed.

(** The contract of [setAttestation] and [deleteAttestations], for a key
    that is defined: what is set is stored, and a deletion removes the
    listed attestations and no other. *)
Definition setStores : Prop :=
  ∀ d k a, stored (setAttestation d (Some k) a) (Some k) a.

Definition deleteRemoves : Prop :=
  ∀ d k l b,
    stored (deleteAttestations d (Some k) l) (Some k) b ↔
    stored d (Some k) b ∧ b ∉ l.

(** The target epoch is one the clean-up of [storeAttestation] removes. *)
Definition prunedBy (attestation b : Attestation) : Prop :=
  (0 ≤ cp_epoch (ad_target (data b)) < cp_epoch (ad_target (data attestation)))%Z.

(** The run of [storeAttestation] for a key that is defined: it returns,
    logs nothing, and what is stored afterwards is what was stored right
    after [setAttestation], less the pruned epochs. *)
Lemma storeAttestation_run (attesterIndex : Z) (k : BLSPubkey)
  (attestation : Attestation) (w : World) :
  searchIsFilter → deleteRemoves →
  index publicKeys attesterIndex = Some k →
  ∃ w',
    storeAttestation attesterIndex attestation w = (Return tt, w') ∧
    events w' = events w ∧
    (∀ b, stored (db w') (Some k) b ↔
          stored (setAttestation (db w) (Some k) attestation) (Some k) b ∧
          ¬ prunedBy attestation b).
Proof.
  intros Hsearch Hdelete Hk.
  unfold searchIsFilter in Hsearch. unfold deleteRemoves in Hdelete.
  unfold storeAttestation. rewrite Hk.
  eexists. split; [reflexivity|]. cbn [db events]. split; [done|].
  intros b. rewrite Hdelete, Hsearch. unfold inRange, prunedBy. cbn [gte lt].
  rewrite andb_true_iff, Z.leb_le, Z.ltb_lt. tauto.
Qed.

(** [storeAttestation] keeps the attestation it stores and prunes the
    older ones: afterwards the validator's stored attestations are those
    stored right after [setAttestation] whose target epoch is not in
    [0, target epoch of the new one). *)
Theorem storeAttestation_prunes_older (attesterIndex : Z) (k : BLSPubkey)
  (attestation : Attestation) (w : World) :
  searchIsFilter → setStores → deleteRemoves →
  index publicKeys attesterIndex = Some k →
  ∃ w',
    storeAttestation attesterIndex attestation w = (Return tt, w') ∧
    events w' = events w ∧
    stored (db w') (Some k) attestation ∧
    (∀ b, stored (db w') (Some k) b ↔
          stored (setAttestation (db w) (Some k) attestation) (Some k) b ∧
          ¬ prunedBy attestation b).
Proof.
  intros Hsearch Hset Hdelete Hk.
  destruct (storeAttestation_run attesterIndex k attestation w Hsearch Hdelete Hk)
    as (w' & Hrun & Hev & Hiff).
  exists w'. split; [exact Hrun|]. split; [exact Hev|]. split; [|exact Hiff].
  apply Hiff. split; [apply Hset|]. unfold prunedBy. lia.
Qed.

(** The call that goes through: the data conflicts with nothing and the
    keys are there. The attestation returned carries the produced data
    and the signature of the validator's private key over the signing root
    of the data in the attester domain of its target epoch; it is stored,
    no stored attestation of the validator has an older target epoch, and
    the signature and the log line are the only other effects. *)
Theorem createAttestation_signs_and_stores
  (attesterIndex : Z) (slot : Slot) (committeeIndex : CommitteeIndex)
  (fork : Fork) (genesisValidatorsRoot : Root)
  (attestation : Attestation) (sk : PrivateKey) (k : BLSPubkey) (w : World) :
  searchIsFilter → setStores → deleteRemoves →
  index publicKeys attesterIndex = Some k →
  index privateKeys attesterIndex = Some sk →
  produceAttestation (Some k) committeeIndex slot = Return attestation →
  (∀ a, stored (db w) (Some k) a →
        (cp_epoch (ad_target (data attestation)) ≤ cp_epoch (ad_target (data a)))%Z →
        isSlashableAttestationData (data a) (data attestation) = false) →
  let signingRoot :=
    computeSigningRoot (data attestation)
      (getDomain fork genesisValidatorsRoot BEACON_ATTESTER
         (cp_epoch (ad_target (data attestation)))) in
  let signed :=
    {| aggregationBits := aggregationBits attestation;
       data := data attestation;
       signature := signMessage sk signingRoot |} in
  ∃ w',
    createAttestation attesterIndex slot committeeIndex fork genesisValidatorsRoot w
      = (Return signed, w') ∧
    events w' = events w ++ [EvSign attesterIndex signingRoot;
                             EvInfo "Signed new attestation"] ∧
    stored (db w') (Some k) signed ∧
    (∀ b, stored (db w') (Some k) b → ¬ prunedBy signed b).
Proof.
  intros Hsearch Hset Hdelete Hk Hsk Hproduced Hnone. cbv zeta.
  unfold createAttestation. rewrite bind_run, Hk, Hproduced. cbn [mret M_ret].
  rewrite bind_run. unfold isConflictingAttestation. rewrite bind_run, Hk. cbn [dbGet].
  rewrite someConflict_miss.
  2:{ intros a Ha. apply Hsearch in Ha as [Hst Hr]. apply Hnone; [done|].
      unfold inRange in Hr. cbn [gte lt] in Hr. rewrite andb_true_r in Hr.
      by apply Z.leb_le. }
  rewrite bind_run. unfold sign. rewrite Hsk, bind_run. cbn [emit mret M_ret].
  set (signed := {| aggregationBits := aggregationBits attestation;
                    data := data attestation;
                    signature := signMessage sk _ |}).
  rewrite bind_run.
  destruct (storeAttestation_run attesterIndex k signed
              (mkWorld (db w) (events w ++ [EvSign attesterIndex
                 (computeSigningRoot (data attestation)
                    (getDomain fork genesisValidatorsRoot BEACON_ATTESTER
                       (cp_epoch (ad_target (data attestation)))))]))
              Hsearch Hdelete Hk) as (w1 & Hstore & Hev & Hiff).
  rewrite Hstore. rewrite bind_run. cbn [emit mret M_ret].
  eexists. split; [reflexivity|]. cbn [db events].
  split; [rewrite Hev; cbn [events]; by rewrite <- app_assoc|].
  split.
  - apply Hiff. split; [apply Hset|]. unfold prunedBy. lia.
  - intros b Hb. by apply Hiff in Hb as [_ ?].
Qed.

End Service.

(** *** A database kept as a list *)

Definition ListDB := list (BLSPubkey * Attestation).

Definition sameSlot (pk : BLSPubkey) (e : Epoch) (entry : BLSPubkey * Attestation) : bool :=
  bool_decide (entry.1 = pk) && (cp_epoch (ad_target (data entry.2)) =? e)%Z.

#[global] Instance AttestationData_eq_dec : EqDecision AttestationData.
Proof. solve_decision. Defined.
#[global] Instance Attestation_eq_dec : EqDecision Attestation.
Proof. solve_decision. Defined.

#[global] Instance ListDB_db : IValidatorDB ListDB := {|
  getAttestations d pk opts :=
    match pk with
    | Some k =>
        (filter (λ entry, entry.1 = k ∧
                   inRange opts (cp_epoch (ad_target (data entry.2))) = true) d).*2
    | None => []
    end;
  setAttestation d pk a :=
    match pk with
    | Some k =>
        (k, a) :: filter (λ entry, sameSlot k (cp_epoch (ad_target (data a))) entry = false) d
    | None => d
    end;
  deleteAttestations d pk l :=
    match pk with
    | Some k => filter (λ entry, ¬ (entry.1 = k ∧ entry.2 ∈ l)) d
    | None => d
    end
|}.

(** The two slashing conditions of the protocol, for the sample run
    below: a double vote (distinct data, same target epoch) and a surround
    vote (the first surrounds the second). *)
Definition isSlashableSample (data1 data2 : AttestationData) : bool :=
  (bool_decide (data1 ≠ data2) &&
     (cp_epoch (ad_target data1) =? cp_epoch (ad_target data2))%Z) ||
  ((cp_epoch (ad_source data1) <? cp_epoch (ad_source data2))%Z &&
     (cp_epoch (ad_target data2) <? cp_epoch (ad_target data1))%Z).

Definition keyA : BLSPubkey := [xa1; xa2].
Definition storedAttestation : Attestation :=
  {| aggregationBits := [true];
     data := {| ad_slot := 321%Z; ad_index := 2%Z; ad_beaconBlockRoot := [x01];
                ad_source := mkCheckpoint 9 [x09];
                ad_target := mkCheckpoint 10 [x0a] |};
     signature := [x55] |}.
Definition producedAttestation : Attestation :=
  {| aggregationBits := [true];
     data := {| ad_slot := 322%Z; ad_index := 2%Z; ad_beaconBlockRoot := [x02];
                ad_source := mkCheckpoint 9 [x09];
                ad_target := mkCheckpoint 10 [x0b] |};
     signature := [] |}.
Definition sampleWorld : World (DB := ListDB) :=
  mkWorld [(keyA, storedAttestation)] [].
Definition sampleFork : Fork := mkFork [x00] [x01] 0.

Lemma ListDB_searchIsFilter : searchIsFilter (DB := ListDB).
Proof.
  intros d [k|] opts a; unfold stored; cbn [getAttestations ListDB_db].
  - rewrite !list_elem_of_fmap. split.
    + intros ([k' b] & -> & Hb). apply list_elem_of_filter in Hb as [[Hk Hr] Hb].
      split; [|exact Hr]. exists (k', b). split; [done|].
      apply list_elem_of_filter. by split.
    + intros (([k' b] & -> & Hb) & Hr).
      apply list_elem_of_filter in Hb as [[Hk _] Hb].
      exists (k', b). split; [done|]. apply list_elem_of_filter. by split.
  - split; [intros H; by apply elem_of_nil in H|].
    intros [H _]. by apply elem_of_nil in H.
Qed.

Lemma createAttestation_refuses_slashable_witness :
  ∃ w',
    createAttestation Bytes (λ _ _ _, Return producedAttestation)
      isSlashableSample (λ _ _ _ _, []) (λ _ domain, domain) (λ sk root, sk ++ root)
      [[x77]] [keyA] 0%Z 322%Z 2%Z sampleFork [] sampleWorld
      = (Throw (ErrorMessage
                  "Avoided signing conflicting attestation! Source epoch: 9, Target epoch: 10"),
         w') ∧
    db w' = db sampleWorld ∧
    filter isSign (events w') = filter isSign (events sampleWorld) ∧
    events w' = (events sampleWorld ++ [EvInfo "conflict"])%list.
Proof.
  apply (createAttestation_refuses_slashable Bytes
           (λ _ _ _, Return producedAttestation) isSlashableSample
           (λ _ _ _ _, []) (λ _ domain, domain) (λ sk root, sk ++ root)
           [[x77]] [keyA] 0%Z 322%Z 2%Z sampleFork [] producedAttestation sampleWorld).
  - exact ListDB_searchIsFilter.
  - reflexivity.
  - exists storedAttestation. split; [|split; [|reflexivity]].
    + unfold stored. cbn. apply list_elem_of_here.
    + cbn. lia.
Defined.

(** The same call on an empty database signs and stores. *)
Example createAttestation_sample_signs :
  createAttestation Bytes (λ _ _ _, Return producedAttestation)
    isSlashableSample (λ _ _ _ _, []) (λ _ domain, domain) (λ sk root, sk ++ root)
    [[x77]] [keyA] 0%Z 322%Z 2%Z sampleFork [] (mkWorld (DB := ListDB) [] [])
  = (Return {| aggregationBits := [true];
               data := data producedAttestation;
               signature := [x77] |},
     mkWorld
       [(keyA, {| aggregationBits := [true];
                  data := data producedAttestation;
                  signature := [x77] |})]
       [EvSign 0%Z []; EvInfo "Signed new attestation"]).
Proof. vm_compute. reflexivity. Qed.

(** *** The list database meets the contract; sample calls *)

Lemma ListDB_stored (d : ListDB) (k : BLSPubkey) (b : Attestation) :
  stored d (Some k) b ↔ (k, b) ∈ d.
Proof.
  unfold stored. cbn [getAttestations ListDB_db]. rewrite list_elem_of_fmap. split.
  - intros ([k' b'] & -> & Hin). apply list_elem_of_filter in Hin as [[Hk _] Hin].
    simpl in Hk. by subst.
  - intros Hin. exists (k, b). split; [done|]. apply list_elem_of_filter. by split.
Qed.

Lemma ListDB_setStores : setStores (DB := ListDB).
Proof.
  intros d k a. apply ListDB_stored. cbn [setAttestation ListDB_db].
  apply list_elem_of_here.
Qed.

Lemma ListDB_deleteRemoves : deleteRemoves (DB := ListDB).
Proof.
  intros d k l b. rewrite !ListDB_stored. cbn [deleteAttestations ListDB_db].
  rewrite list_elem_of_filter. simpl. split.
  - intros [Hnot Hin]. split; [done|]. intros Hl. apply Hnot. by split.
  - intros [Hin Hl]. split; [|done]. intros [_ ?]. done.
Qed.

Definition newerAttestation : Attestation :=
  {| aggregationBits := [true];
     data := {| ad_slot := 354%Z; ad_index := 2%Z; ad_beaconBlockRoot := [x03];
                ad_source := mkCheckpoint 10 [x0a];
                ad_target := mkCheckpoint 11 [x0c] |};
     signature := [] |}.

Lemma createAttestation_provider_failure_witness :
  createAttestation (DB := ListDB) Bytes (λ _ _ _, Throw (ErrorMessage "node is syncing"))
    isSlashableSample (λ _ _ _ _, []) (λ _ domain, domain) (λ sk root, sk ++ root)
    [[x77]] [keyA] 0%Z 322%Z 2%Z sampleFork [] sampleWorld
  = (Throw (ErrorMessage
              "Failed to obtain attestation at slot 322 and committee 2: node is syncing"),
     sampleWorld).
Proof.
  apply (createAttestation_provider_failure (DB := ListDB) Bytes
           (λ _ _ _, Throw (ErrorMessage "node is syncing"))
           isSlashableSample (λ _ _ _ _, []) (λ _ domain, domain) (λ sk root, sk ++ root)
           [[x77]] [keyA] 0%Z 322%Z 2%Z sampleFork [] (ErrorMessage "node is syncing")
           sampleWorld).
  reflexivity.
Defined.

Lemma createAttestation_missing_key_witness :
  createAttestation (DB := ListDB) Bytes (λ _ _ _, Return producedAttestation)
    isSlashableSample (λ _ _ _ _, []) (λ _ domain, domain) (λ sk root, sk ++ root)
    [[x77]] [keyA] (-1)%Z 322%Z 2%Z sampleFork [] sampleWorld
  = (Throw TypeError, sampleWorld).
Proof.
  apply (createAttestation_missing_key (DB := ListDB) Bytes
           (λ _ _ _, Return producedAttestation)
           isSlashableSample (λ _ _ _ _, []) (λ _ domain, domain) (λ sk root, sk ++ root)
           [[x77]] [keyA] (-1)%Z 322%Z 2%Z sampleFork [] producedAttestation sampleWorld).
  - reflexivity.
  - intros a Ha. cbn in Ha. by apply elem_of_nil in Ha.
  - reflexivity.
Defined.

(** An attestation of the epoch before the stored one, with an older
    source: the search from its target epoch on returns the stored
    attestation, and the two do not conflict. *)
Definition earlierAttestation : Attestation :=
  {| aggregationBits := [true];
     data := {| ad_slot := 290%Z; ad_index := 2%Z; ad_beaconBlockRoot := [x04];
                ad_source := mkCheckpoint 8 [x08];
                ad_target := mkCheckpoint 9 [x0d] |};
     signature := [] |}.

Lemma createAttestation_signature_implies_no_conflict_witness :
  getAttestations (db sampleWorld) (index [keyA] 0%Z)
    {| gte := Some (cp_epoch (ad_target (data earlierAttestation))); lt := None |}
  = [storedAttestation] ∧
  ∃ attestation,
    Return earlierAttestation = Return attestation ∧
    ∀ a, a ∈ getAttestations (db sampleWorld) (index [keyA] 0%Z)
               {| gte := Some (cp_epoch (ad_target (data attestation))); lt := None |} →
         isSlashableSample (data a) (data attestation) = false.
Proof.
  split; [reflexivity|].
  eapply (createAttestation_signature_implies_no_conflict (DB := ListDB) Bytes
            (λ _ _ _, Return earlierAttestation)
            isSlashableSample (λ _ _ _ _, []) (λ _ domain, domain) (λ sk root, sk ++ root)
            [[x77]] [keyA] 0%Z 290%Z 2%Z sampleFork []).
  - vm_compute. reflexivity.
  - vm_compute. discriminate.
Defined.

Lemma storeAttestation_prunes_older_witness :
  ∃ w',
    storeAttestation (DB := ListDB) [keyA] 0%Z newerAttestation sampleWorld
      = (Return tt, w') ∧
    events w' = events sampleWorld ∧
    stored (db w') (Some keyA) newerAttestation ∧
    (∀ b, stored (db w') (Some keyA) b ↔
          stored (setAttestation (db sampleWorld) (Some keyA) newerAttestation)
            (Some keyA) b ∧
          ¬ prunedBy newerAttestation b).
Proof.
  apply (storeAttestation_prunes_older (DB := ListDB) [keyA] 0%Z keyA newerAttestation
           sampleWorld ListDB_searchIsFilter ListDB_setStores ListDB_deleteRemoves).
  reflexivity.
Defined.

(** The stored attestation of epoch 10 is gone once the one of epoch 11
    is stored. *)
Example storeAttestation_sample :
  (storeAttestation (DB := ListDB) [keyA] 0%Z newerAttestation sampleWorld).2
  = mkWorld [(keyA, newerAttestation)] [].
Proof. vm_compute. reflexivity. Qed.

Lemma createAttestation_signs_and_stores_witness :
  ∃ w',
    createAttestation (DB := ListDB) Bytes (λ _ _ _, Return newerAttestation)
      isSlashableSample (λ _ _ _ _, [x0d]) (λ _ domain, domain) (λ sk root, sk ++ root)
      [[x77]] [keyA] 0%Z 354%Z 2%Z sampleFork [] sampleWorld
    = (Return {| aggregationBits := [true];
                 data := data newerAttestation;
                 signature := [x77; x0d] |}, w') ∧
    events w' = events sampleWorld ++ [EvSign 0%Z [x0d]; EvInfo "Signed new attestation"] ∧
    stored (db w') (Some keyA)
      {| aggregationBits := [true];
         data := data newerAttestation;
         signature := [x77; x0d] |} ∧
    (∀ b, stored (db w') (Some keyA) b →
          ¬ prunedBy {| aggregationBits := [true];
                        data := data newerAttestation;
                        signature := [x77; x0d] |} b).
Proof.
  apply (createAttestation_signs_and_stores (DB := ListDB) Bytes
           (λ _ _ _, Return newerAttestation)
           isSlashableSample (λ _ _ _ _, [x0d]) (λ _ domain, domain) (λ sk root, sk ++ root)
           [[x77]] [keyA] 0%Z 354%Z 2%Z sampleFork [] newerAttestation [x77] keyA
           sampleWorld ListDB_searchIsFilter ListDB_setStores ListDB_deleteRemoves).
  - reflexivity.
  - reflexivity.
  - reflexivity.
  - intros a Ha Hle. apply ListDB_stored in Ha. unfold sampleWorld in Ha. cbn [db] in Ha.
    apply list_elem_of_singleton in Ha. injection Ha as ->. cbn in Hle. lia.
Defined.

(** *** Duties and aggregation

    [updateDuties] asks the beacon node for the duties of an epoch and
    keeps them in [nextAttesterDuties], a map from the slot to a map from
    the index of the validator among the keys of the service to the duty;
    [aggregateAttestations] publishes the aggregate of an aggregator. *)

(** [AttesterDuty], as the beacon node answers it. *)
Record AttesterDuty := mkAttesterDuty {
  validatorPubkey : BLSPubkey;
  aggregatorModulo : Z;
  attestationSlot : Slot;
  committeeIndex : CommitteeIndex
}.
Arguments mkAttesterDuty _ _%_Z _%_Z _%_Z.

(** [IAttesterDuty]: [{...duty, attesterIndex, isAggregator}]. *)
Record IAttesterDuty := mkIAttesterDuty {
  duty_validatorPubkey : BLSPubkey;
  duty_aggregatorModulo : Z;
  duty_attestationSlot : Slot;
  duty_committeeIndex : CommitteeIndex;
  duty_attesterIndex : Z;
  duty_isAggregator : bool
}.
Arguments mkIAttesterDuty _ _%_Z _%_Z _%_Z _%_Z _.

Record AggregateAndProof := mkAggregateAndProof {
  aggregatorIndex : Z;
  aggregate : Attestation;
  selectionProof : BLSSignature
}.
Arguments mkAggregateAndProof _%_Z _ _.

Record SignedAggregateAndProof := mkSignedAggregateAndProof {
  message : AggregateAndProof;
  signed_signature : BLSSignature
}.

(** What the service does to the outside: log lines (kept by their first
    words), signatures, and requests to the beacon node. *)
Inductive Call :=
  | LogError (msg : string)
  | LogInfo (msg : string)
  | LogDebug (msg : string)
  | SignMessage (attesterIndex : Z) (signingRoot : Bytes)
  | GetAttesterDuties (epoch : Epoch)
  | GetFork
  | SubscribeCommitteeSubnet (slot : Slot) (slotSignature : BLSSignature)
      (committee : CommitteeIndex) (pubkey : option BLSPubkey)
  | ProduceAggregateAndProof (attestationData : AttestationData) (pubkey : BLSPubkey)
  | PublishAggregateAndProof (signed : SignedAggregateAndProof).

Arguments SignMessage _%_Z _.
Arguments GetAttesterDuties _%_Z.
Arguments SubscribeCommitteeSubnet _%_Z _ _%_Z _.

Definition isSubscribe (c : Call) : bool :=
  match c with
  | SubscribeCommitteeSubnet _ _ _ _ => true
  | _ => false
  end.

(** [arr.findIndex(p)]: the first index whose element satisfies [p], or
    -1. *)
Definition findIndex {A : Type} (P : A → Prop) `{!∀ x, Decision (P x)}
  (arr : list A) : Z :=
  match list_find P arr with
  | Some (i, _) => Z.of_nat i
  | None => (-1)%Z
  end.

(** The duty kept for a slot and an attester index. *)
Definition dutyAt (duties : gmap Slot (gmap Z IAttesterDuty)) (slot : Slot) (i : Z)
  : option IAttesterDuty :=
  duties !! slot ≫= (.!! i).
Arguments dutyAt _ _%_Z _%_Z.

Section Duties.
Variable PrivateKey : Type.
Variable signMessage : PrivateKey → Bytes → BLSSignature.
(** From [@chainsafe/lodestar-beacon-state-transition] and
    [../util/aggregator], at the service's [config]; [computeSigningRoot]
    at the types [Slot] and [AggregateAndProof]. *)
Variable getDomain : Fork → Root → DomainType → Epoch → Bytes.
Variable computeEpochAtSlot : Slot → Epoch.
Variable computeSigningRootOfSlot : Slot → Bytes → Bytes.
Variable computeSigningRootOfAggregateAndProof : AggregateAndProof → Bytes → Bytes.
Variable isValidatorAggregator : BLSSignature → Z → bool.
(** The calls of [this.provider], awaited. *)
Variable getAttesterDuties : Epoch → list BLSPubkey → Completion (list AttesterDuty).
Variable getFork : Completion (Fork * Root).
Variable subscribeCommitteeSubnet :
  Slot → BLSSignature → CommitteeIndex → option BLSPubkey → Completion unit.
Variable produceAggregateAndProof :
  AttestationData → BLSPubkey → Completion AggregateAndProof.
Variable publishAggregateAndProof : SignedAggregateAndProof → Completion unit.

(** [Keypair]; [publicKey] is [keypair.publicKey.toBytesCompressed()]. *)
Record Keypair := mkKeypair {
  privateKey : PrivateKey;
  publicKey : BLSPubkey
}.

(** The constructor pushes the two keys of every keypair onto the two
    arrays of the service. *)
Definition constructor (keypairs : list Keypair) : list PrivateKey * list BLSPubkey :=
  foldl (λ keys keypair,
           (keys.1 ++ [privateKey keypair], keys.2 ++ [publicKey keypair]))
        ([], []) keypairs.

Variable keypairs : list Keypair.

Definition privateKeys : list PrivateKey := (constructor keypairs).1.
Definition publicKeys : list BLSPubkey := (constructor keypairs).2.

(** The fields of the service that change, and the calls so far. *)
Record Service := mkService {
  nextAttesterDuties : gmap Slot (gmap Z IAttesterDuty);
  calls : list Call
}.

Definition Act (A : Type) : Type := Service → Completion A * Service.

#[local] Instance Act_ret : MRet Act := λ A a s, (Return a, s).
#[local] Instance Act_bind : MBind Act := λ A B f m s,
  match m s with
  | (Return a, s') => f a s'
  | (Throw e, s') => (Throw e, s')
  end.

Definition record (c : Call) : Act unit :=
  λ s, (Return tt, mkService (nextAttesterDuties s) (calls s ++ [c])).

(** An awaited call of the provider. *)
Definition await {A : Type} (c : Completion A) : Act A := λ s, (c, s).

(** [try { body } catch (e) { handler }] *)
Definition tryCatch {A : Type} (body : Act A) (handler : Error → Act A) : Act A :=
  λ s, match body s with
       | (Return a, s') => (Return a, s')
       | (Throw e, s') => handler e s'
       end.

(** [for (const x of xs) { body }] *)
Fixpoint forOf {A : Type} (body : A → Act unit) (xs : list A) : Act unit :=
  match xs with
  | [] => mret tt
  | x :: xs' => body x;; forOf body xs'
  end.

(** [this.privateKeys[attesterIndex].signMessage(signingRoot)]: a
    [TypeError] when there is no such key. *)
Definition signWith (attesterIndex : Z) (signingRoot : Bytes) : Act BLSSignature :=
  match index privateKeys attesterIndex with
  | Some sk =>
      record (SignMessage attesterIndex signingRoot);;
      mret (signMessage sk signingRoot)
  | None => λ s, (Throw TypeError, s)
  end.

Definition getSlotSignature (attesterIndex : Z) (slot : Slot) (fork : Fork)
  (genesisValidatorsRoot : Root) : Act BLSSignature :=
  let domain :=
    getDomain fork genesisValidatorsRoot SELECTION_PROOF (computeEpochAtSlot slot) in
  let signingRoot := computeSigningRootOfSlot slot domain in
  signWith attesterIndex signingRoot.

Definition getAggregateAndProofSignature (aggregatorIndex : Z) (fork : Fork)
  (genesisValidatorsRoot : Root) (aggregateAndProof : AggregateAndProof)
  : Act BLSSignature :=
  let aggregate := aggregate aggregateAndProof in
  let domain :=
    getDomain fork genesisValidatorsRoot AGGREGATE_AND_PROOF
      (computeEpochAtSlot (ad_slot (data aggregate))) in
  let signingRoot := computeSigningRootOfAggregateAndProof aggregateAndProof domain in
  signWith aggregatorIndex signingRoot.

(** The inner map of the slot is made when there is none, then the duty
    is set at the attester index. *)
Definition setDuty (slot : Slot) (attesterIndex : Z) (nextDuty : IAttesterDuty)
  : Act unit :=
  λ s,
    let attesterDuties :=
      match nextAttesterDuties s !! slot with
      | Some attesterDuties => attesterDuties
      | None => ∅
      end in
    (Return tt,
     mkService (<[slot := <[attesterIndex := nextDuty]> attesterDuties]>
                  (nextAttesterDuties s))
               (calls s)).

(** The body of the loop of [updateDuties]. *)
Definition registerDuty (fork : Fork) (genesisValidatorsRoot : Root)
  (duty : AttesterDuty) : Act unit :=
  let attesterIndex :=
    findIndex (λ pubkey, pubkey = validatorPubkey duty) publicKeys in
  slotSignature ←
    getSlotSignature attesterIndex (attestationSlot duty) fork genesisValidatorsRoot;
  let isAggregator := isValidatorAggregator slotSignature (aggregatorModulo duty) in
  record (LogDebug "new attester duty");;
  let nextDuty :=
    {| duty_validatorPubkey := validatorPubkey duty;
       duty_aggregatorModulo := aggregatorModulo duty;
       duty_attestationSlot := attestationSlot duty;
       duty_committeeIndex := committeeIndex duty;
       duty_attesterIndex := attesterIndex;
       duty_isAggregator := isAggregator |} in
  setDuty (attestationSlot duty) attesterIndex nextDuty;;
  if isAggregator then
    tryCatch
      (record (SubscribeCommitteeSubnet (attestationSlot duty) slotSignature
                 (committeeIndex duty) (index publicKeys attesterIndex));;
       await (subscribeCommitteeSubnet (attestationSlot duty) slotSignature
                (committeeIndex duty) (index publicKeys attesterIndex)))
      (λ e, record (LogError "Failed to subscribe to committee subnet"))
  else mret tt.

Definition updateDuties (epoch : Epoch) : Act unit :=
  attesterDuties ←
    tryCatch
      (record (GetAttesterDuties epoch);;
       attesterDuties ← await (getAttesterDuties epoch publicKeys);
       mret (Some attesterDuties))
      (λ e,
         record (LogError ("Failed to obtain attester duty for epoch " +:+
                           showNumber epoch));;
         mret None);
  match attesterDuties with
  | None => mret tt
  | Some attesterDuties =>
      record GetFork;;
      '(fork, genesisValidatorsRoot) ← await getFork;
      forOf (registerDuty fork genesisValidatorsRoot) attesterDuties
  end.

(** The end of the lines [aggregateAttestations] logs:
    [for committee ${duty.committeeIndex} at slot ${duty.attestationSlot}]. *)
Definition ofDuty (duty : IAttesterDuty) : string :=
  " for committee " +:+ showNumber (duty_committeeIndex duty) +:+
  " at slot " +:+ showNumber (duty_attestationSlot duty).

Definition aggregateAttestations (attesterIndex : Z) (duty : IAttesterDuty)
  (attestation : Attestation) (fork : Fork) (genesisValidatorsRoot : Root)
  : Act unit :=
  record (LogInfo ("Aggregating attestations" +:+ ofDuty duty));;
  aggregateAndProof ←
    tryCatch
      (record (ProduceAggregateAndProof (data attestation) (duty_validatorPubkey duty));;
       aggregateAndProof ←
         await (produceAggregateAndProof (data attestation) (duty_validatorPubkey duty));
       mret (Some aggregateAndProof))
      (λ e, record (LogError "Failed to produce aggregate and proof");; mret None);
  match aggregateAndProof with
  | None => mret tt
  | Some aggregateAndProof =>
      selectionProof' ←
        getSlotSignature attesterIndex (duty_attestationSlot duty) fork
          genesisValidatorsRoot;
      let aggregateAndProof :=
        {| aggregatorIndex := aggregatorIndex aggregateAndProof;
           aggregate := aggregate aggregateAndProof;
           selectionProof := selectionProof' |} in
      signature' ←
        getAggregateAndProofSignature attesterIndex fork genesisValidatorsRoot
          aggregateAndProof;
      let signedAggregateAndProof :=
        {| message := aggregateAndProof; signed_signature := signature' |} in
      tryCatch
        (record (PublishAggregateAndProof signedAggregateAndProof);;
         await (publishAggregateAndProof signedAggregateAndProof);;
         record (LogInfo ("Published signed aggregate and proof" +:+ ofDuty duty)))
        (λ e, record (LogError ("Failed to publish aggregate and proof" +:+
                                ofDuty duty)))
  end.

(** The signing root of a slot in the domain of selection proofs. *)
Definition slotSigningRoot (fork : Fork) (genesisValidatorsRoot : Root) (slot : Slot)
  : Bytes :=
  computeSigningRootOfSlot slot
    (getDomain fork genesisValidatorsRoot SELECTION_PROOF (computeEpochAtSlot slot)).

(** The first keypair of the service with the public key of the duty. *)
Definition keypairOf (duty : AttesterDuty) : option (nat * Keypair) :=
  list_find (λ keypair, publicKey keypair = validatorPubkey duty) keypairs.

(** What [updateDuties] keeps for a duty of one of its validators, and
    the subscription it asks for when the validator is an aggregator. *)
Definition slotSignatureOf (fork : Fork) (genesisValidatorsRoot : Root)
  (duty : AttesterDuty) (keypair : Keypair) : BLSSignature :=
  signMessage (privateKey keypair)
    (slotSigningRoot fork genesisValidatorsRoot (attestationSlot duty)).

Definition keptDuty (fork : Fork) (genesisValidatorsRoot : Root)
  (duty : AttesterDuty) : option IAttesterDuty :=
  '(i, keypair) ← keypairOf duty;
  Some {| duty_validatorPubkey := validatorPubkey duty;
          duty_aggregatorModulo := aggregatorModulo duty;
          duty_attestationSlot := attestationSlot duty;
          duty_committeeIndex := committeeIndex duty;
          duty_attesterIndex := Z.of_nat i;
          duty_isAggregator :=
            isValidatorAggregator
              (slotSignatureOf fork genesisValidatorsRoot duty keypair)
              (aggregatorModulo duty) |}.

Definition subscriptionOf (fork : Fork) (genesisValidatorsRoot : Root)
  (duty : AttesterDuty) : option Call :=
  '(i, keypair) ← keypairOf duty;
  let slotSignature := slotSignatureOf fork genesisValidatorsRoot duty keypair in
  if isValidatorAggregator slotSignature (aggregatorModulo duty) then
    Some (SubscribeCommitteeSubnet (attestationSlot duty) slotSignature
            (committeeIndex duty) (Some (publicKey keypair)))
  else None.

(** The duties of a list for a slot and an attester index. *)
Definition dutiesFor (slot : Slot) (i : Z) (duties : list AttesterDuty)
  : list AttesterDuty :=
  filter (λ duty, attestationSlot duty = slot ∧
                  findIndex (λ pubkey, pubkey = validatorPubkey duty) publicKeys = i)
         duties.

(** No slot of the map is kept with an empty map of duties. *)
Definition noEmptySlot (duties : gmap Slot (gmap Z IAttesterDuty)) : Prop :=
  ∀ slot attesterDuties, duties !! slot = Some attesterDuties → attesterDuties ≠ ∅.

(** From one state of the service to a later one nothing kept is
    dropped. *)
Definition grows (s s' : Service) : Prop :=
  (∀ slot i, is_Some (dutyAt (nextAttesterDuties s) slot i) →
             is_Some (dutyAt (nextAttesterDuties s') slot i)) ∧
  (noEmptySlot (nextAttesterDuties s) → noEmptySlot (nextAttesterDuties s')) ∧
  calls s `prefix_of` calls s'.

(** *** The keys of the service *)

Lemma constructor_keys (kps : list Keypair) :
  constructor kps = (privateKey <$> kps, publicKey <$> kps).
Proof.
  unfold constructor.
  enough (H : ∀ sks pks,
             foldl (λ keys keypair,
                      (keys.1 ++ [privateKey keypair], keys.2 ++ [publicKey keypair]))
                   (sks, pks) kps
             = (sks ++ (privateKey <$> kps), pks ++ (publicKey <$> kps)))
    by apply (H [] []).
  induction kps as [|kp kps IH]; intros sks pks; cbn [foldl fmap list_fmap].
  - by rewrite !app_nil_r.
  - cbn [fst snd]. rewrite IH, <- !app_assoc. done.
Qed.

Lemma index_of_nat {A : Type} (arr : list A) (i : nat) :
  index arr (Z.of_nat i) = arr !! i.
Proof.
  unfold index. destruct (Z.ltb_spec (Z.of_nat i) 0); [lia|]. by rewrite Nat2Z.id.
Qed.

Lemma findIndex_publicKeys (duty : AttesterDuty) :
  findIndex (λ pubkey, pubkey = validatorPubkey duty) publicKeys
  = match keypairOf duty with
    | Some (i, _) => Z.of_nat i
    | None => (-1)%Z
    end.
Proof.
  unfold findIndex, keypairOf, publicKeys. rewrite constructor_keys. cbn [snd].
  rewrite list_find_fmap.
  destruct (list_find _ keypairs) as [[i kp]|]; reflexivity.
Qed.

Lemma keypairOf_Some (duty : AttesterDuty) (i : nat) (keypair : Keypair) :
  keypairOf duty = Some (i, keypair) →
  index privateKeys (Z.of_nat i) = Some (privateKey keypair) ∧
  index publicKeys (Z.of_nat i) = Some (publicKey keypair) ∧
  publicKey keypair = validatorPubkey duty.
Proof.
  intros Hfind. apply list_find_Some in Hfind as (Hi & Hpk & _).
  rewrite !index_of_nat. unfold privateKeys, publicKeys. rewrite constructor_keys.
  cbn [fst snd]. rewrite !list_lookup_fmap, Hi. done.
Qed.

Lemma keypairOf_None (duty : AttesterDuty) :
  keypairOf duty = None ↔ validatorPubkey duty ∉ publicKeys.
Proof.
  unfold keypairOf, publicKeys. rewrite constructor_keys. cbn [snd].
  rewrite list_find_None, Forall_forall, list_elem_of_fmap. split.
  - intros Hall (kp & Hpk & Hin). by apply (Hall kp).
  - intros Hnot kp Hin Hpk. apply Hnot. by exists kp.
Qed.

(** *** The run of [updateDuties] *)

Lemma dutyAt_insert (duties : gmap Slot (gmap Z IAttesterDuty)) (slot slot' : Slot)
  (i j : Z) (nextDuty : IAttesterDuty) :
  dutyAt (<[slot := <[i := nextDuty]> (default ∅ (duties !! slot))]> duties) slot' j
  = if decide (slot' = slot ∧ j = i) then Some nextDuty else dutyAt duties slot' j.
Proof.
  unfold dutyAt. destruct (decide (slot' = slot)) as [->|Hslot].
  - rewrite lookup_insert_eq. cbn. destruct (decide (j = i)) as [->|Hj].
    + rewrite lookup_insert_eq. by rewrite decide_True.
    + rewrite lookup_insert_ne by done. rewrite decide_False by tauto.
      destruct (duties !! slot); [done|]. cbn. apply lookup_empty.
  - rewrite lookup_insert_ne by done. by rewrite decide_False by tauto.
Qed.

(** One turn of the loop for a duty of one of the validators. *)
Lemma registerDuty_known (fork : Fork) (genesisValidatorsRoot : Root)
  (duty : AttesterDuty) (i : nat) (keypair : Keypair) (s : Service) :
  keypairOf duty = Some (i, keypair) →
  ∃ nextDuty new,
    keptDuty fork genesisValidatorsRoot duty = Some nextDuty ∧
    filter isSubscribe new = option_list (subscriptionOf fork genesisValidatorsRoot duty) ∧
    registerDuty fork genesisValidatorsRoot duty s
    = (Return tt,
       mkService
         (<[attestationSlot duty :=
              <[Z.of_nat i := nextDuty]>
                (default ∅ (nextAttesterDuties s !! attestationSlot duty))]>
            (nextAttesterDuties s))
         (calls s ++ new)).
Proof.
  intros Hfind. destruct (keypairOf_Some _ _ _ Hfind) as (Hsk & Hpk & _).
  unfold keptDuty, subscriptionOf, registerDuty. rewrite findIndex_publicKeys, Hfind.
  unfold getSlotSignature, signWith. rewrite Hsk, Hpk.
  unfold slotSignatureOf, slotSigningRoot.
  cbv [mbind Act_bind mret Act_ret record setDuty tryCatch await option_bind].
  cbn [nextAttesterDuties calls].
  destruct (isValidatorAggregator _ _) eqn:Hagg.
  - destruct (subscribeCommitteeSubnet _ _ _ _) as [[]|e]; cbn.
    + eexists _, [_; _; _]. split; [reflexivity|].
      split; [|by rewrite <- !app_assoc]. reflexivity.
    + eexists _, [_; _; _; _]. split; [reflexivity|].
      split; [|by rewrite <- !app_assoc]. reflexivity.
  - eexists _, [_; _]. split; [reflexivity|].
    split; [|by rewrite <- !app_assoc]. reflexivity.
Qed.

(** One turn of the loop for a duty of another validator. *)
Lemma registerDuty_unknown (fork : Fork) (genesisValidatorsRoot : Root)
  (duty : AttesterDuty) (s : Service) :
  keypairOf duty = None →
  registerDuty fork genesisValidatorsRoot duty s = (Throw TypeError, s).
Proof.
  intros Hfind. unfold registerDuty. rewrite findIndex_publicKeys, Hfind.
  reflexivity.
Qed.

Lemma forOf_app {A : Type} (body : A → Act unit) (xs ys : list A) (s : Service) :
  forOf body (xs ++ ys) s
  = match forOf body xs s with
    | (Return _, s') => forOf body ys s'
    | (Throw e, s') => (Throw e, s')
    end.
Proof.
  revert s. induction xs as [|x xs IH]; intros s; [reflexivity|].
  cbn [app forOf]. unfold mbind, Act_bind. destruct (body x s) as [[[]|e] s1]; [apply IH|done].
Qed.

(** The loop over duties of the validators of the service: it goes
    through, the last duty of a slot and an attester index is the one
    kept, and one subscription is asked per aggregator duty. *)
Lemma forOf_known (fork : Fork) (genesisValidatorsRoot : Root)
  (duties : list AttesterDuty) (s : Service) :
  Forall (λ duty, validatorPubkey duty ∈ publicKeys) duties →
  ∃ s',
    forOf (registerDuty fork genesisValidatorsRoot) duties s = (Return tt, s') ∧
    (∀ slot i,
       dutyAt (nextAttesterDuties s') slot i
       = match last (dutiesFor slot i duties) with
         | Some duty => keptDuty fork genesisValidatorsRoot duty
         | None => dutyAt (nextAttesterDuties s) slot i
         end) ∧
    filter isSubscribe (calls s')
    = filter isSubscribe (calls s) ++ omap (subscriptionOf fork genesisValidatorsRoot) duties.
Proof.
  intros Hknown. revert s.
  induction Hknown as [|duty duties Hduty _ IH]; intros s.
  - exists s. split; [reflexivity|]. split; [done|]. by rewrite app_nil_r.
  - destruct (keypairOf duty) as [[i keypair]|] eqn:Hfind;
      [|by apply keypairOf_None in Hfind].
    destruct (registerDuty_known fork genesisValidatorsRoot duty i keypair s Hfind)
      as (nextDuty & new & Hkept & Hsub & Hrun).
    cbn [forOf]. unfold mbind, Act_bind. rewrite Hrun.
    destruct (IH (mkService
                    (<[attestationSlot duty :=
                         <[Z.of_nat i := nextDuty]>
                           (default ∅ (nextAttesterDuties s !! attestationSlot duty))]>
                       (nextAttesterDuties s))
                    (calls s ++ new))) as (s' & Hloop & Hat & Hcalls).
    exists s'. split; [exact Hloop|]. split.
    + intros slot j. rewrite Hat. cbn [nextAttesterDuties].
      rewrite dutyAt_insert. unfold dutiesFor. rewrite filter_cons.
      rewrite findIndex_publicKeys, Hfind.
      destruct (decide (attestationSlot duty = slot ∧ Z.of_nat i = j)) as [[<- <-]|Hne].
      * rewrite decide_True by done. rewrite last_cons.
        by destruct (last _).
      * rewrite decide_False by (intros [-> ->]; by apply Hne). done.
    + rewrite Hcalls. cbn [calls]. rewrite filter_app, Hsub, <- app_assoc.
      f_equal. cbn [omap list_omap].
      by destruct (subscriptionOf fork genesisValidatorsRoot duty).
Qed.

(** The service only gains duties and calls. *)
Lemma grows_refl (s : Service) : grows s s.
Proof. split; [done|]. split; [done|]. reflexivity. Qed.

Lemma grows_trans (s1 s2 s3 : Service) : grows s1 s2 → grows s2 s3 → grows s1 s3.
Proof.
  intros (Hd & He & Hc) (Hd' & He' & Hc'). split; [|split].
  - intros slot i H. by apply Hd', Hd.
  - intros H. by apply He', He.
  - by etrans.
Qed.

Lemma registerDuty_grows (fork : Fork) (genesisValidatorsRoot : Root)
  (duty : AttesterDuty) (s : Service) :
  grows s (registerDuty fork genesisValidatorsRoot duty s).2.
Proof.
  destruct (keypairOf duty) as [[i keypair]|] eqn:Hfind.
  - destruct (registerDuty_known fork genesisValidatorsRoot duty i keypair s Hfind)
      as (nextDuty & new & _ & _ & ->).
    cbn [snd]. split; [|split]; cbn [nextAttesterDuties calls].
    + intros slot j Hsome. rewrite dutyAt_insert. by destruct (decide _).
    + intros Hne slot inner Hslot.
      destruct (decide (slot = attestationSlot duty)) as [->|Hslot'].
      * rewrite lookup_insert_eq in Hslot. injection Hslot as <-.
        apply insert_non_empty.
      * rewrite lookup_insert_ne in Hslot by done. by eapply Hne.
    + by apply prefix_app_r.
  - rewrite registerDuty_unknown by done. apply grows_refl.
Qed.

Lemma forOf_grows (fork : Fork) (genesisValidatorsRoot : Root)
  (duties : list AttesterDuty) (s : Service) :
  grows s (forOf (registerDuty fork genesisValidatorsRoot) duties s).2.
Proof.
  revert s. induction duties as [|duty duties IH]; intros s; [apply grows_refl|].
  cbn [forOf]. unfold mbind, Act_bind.
  pose proof (registerDuty_grows fork genesisValidatorsRoot duty s) as Hstep.
  destruct (registerDuty fork genesisValidatorsRoot duty s) as [[[]|e] s1]; [|exact Hstep].
  eapply grows_trans; [exact Hstep|apply IH].
Qed.

Lemma record_grows (c : Call) (s : Service) : grows s (record c s).2.
Proof.
  split; [done|]. split; [done|]. cbn. by apply prefix_app_r.
Qed.

(** When the beacon node fails to answer the duties, [updateDuties]
    returns all the same: the failure is logged, the fork is not asked for,
    and the duties kept are left as they are. *)
Theorem updateDuties_provider_failure (epoch : Epoch) (e : Error) (s : Service) :
  getAttesterDuties epoch publicKeys = Throw e →
  updateDuties epoch s
  = (Return tt,
     mkService (nextAttesterDuties s)
       (calls s ++ [GetAttesterDuties epoch;
                    LogError ("Failed to obtain attester duty for epoch " +:+
                              showNumber epoch)])).
Proof.
  intros Hfail. unfold updateDuties.
  cbv [mbind Act_bind mret Act_ret record tryCatch await].
  rewrite Hfail. cbn [nextAttesterDuties calls]. by rewrite <- app_assoc.
Qed.

(** When the beacon node answers the duties and the fork, and every duty
    answered is of a validator of the service, [updateDuties] returns; for
    a slot and an attester index the
    duty kept is the last one answered for them, with the index and the
    aggregator flag worked out from the keypair, or the one kept before
    when none was answered; and a subscription to the committee subnet is
    asked once for each aggregator duty, in the order answered, whether or
    not earlier subscriptions failed. *)
Theorem updateDuties_registers (epoch : Epoch) (duties : list AttesterDuty)
  (fork : Fork) (genesisValidatorsRoot : Root) (s : Service) :
  getAttesterDuties epoch publicKeys = Return duties →
  getFork = Return (fork, genesisValidatorsRoot) →
  Forall (λ duty, validatorPubkey duty ∈ publicKeys) duties →
  ∃ s',
    updateDuties epoch s = (Return tt, s') ∧
    (∀ slot i,
       dutyAt (nextAttesterDuties s') slot i
       = match last (dutiesFor slot i duties) with
         | Some duty => keptDuty fork genesisValidatorsRoot duty
         | None => dutyAt (nextAttesterDuties s) slot i
         end) ∧
    filter isSubscribe (calls s')
    = filter isSubscribe (calls s) ++ omap (subscriptionOf fork genesisValidatorsRoot) duties.
Proof.
  intros Hduties Hfork Hknown. unfold updateDuties.
  cbv [mbind Act_bind mret Act_ret record tryCatch await].
  rewrite Hduties, Hfork. cbn [nextAttesterDuties calls].
  destruct (forOf_known fork genesisValidatorsRoot duties
              (mkService (nextAttesterDuties s)
                 ((calls s ++ [GetAttesterDuties epoch]) ++ [GetFork])) Hknown)
    as (s' & Hloop & Hat & Hcalls).
  exists s'. split; [exact Hloop|]. split; [exact Hat|].
  rewrite Hcalls. cbn [calls]. rewrite !filter_app. cbn. by rewrite !app_nil_r.
Qed.

(** When the beacon node answers the duties and the fork, a duty of a
    validator the service has no key for ends the call: the index found is
    -1, there is no private key to sign the slot with, and [updateDuties]
    throws a [TypeError]. The duties answered before it are
    kept and subscribed as if they were the whole answer; the duty itself
    and the ones after it leave no trace. *)
Theorem updateDuties_unknown_pubkey (epoch : Epoch)
  (known : list AttesterDuty) (duty : AttesterDuty) (later : list AttesterDuty)
  (fork : Fork) (genesisValidatorsRoot : Root) (s : Service) :
  getAttesterDuties epoch publicKeys = Return (known ++ duty :: later) →
  getFork = Return (fork, genesisValidatorsRoot) →
  Forall (λ duty, validatorPubkey duty ∈ publicKeys) known →
  validatorPubkey duty ∉ publicKeys →
  ∃ s',
    updateDuties epoch s = (Throw TypeError, s') ∧
    (∀ slot i,
       dutyAt (nextAttesterDuties s') slot i
       = match last (dutiesFor slot i known) with
         | Some duty => keptDuty fork genesisValidatorsRoot duty
         | None => dutyAt (nextAttesterDuties s) slot i
         end) ∧
    filter isSubscribe (calls s')
    = filter isSubscribe (calls s) ++ omap (subscriptionOf fork genesisValidatorsRoot) known.
Proof.
  intros Hduties Hfork Hknown Hunknown. unfold updateDuties.
  cbv [mbind Act_bind mret Act_ret record tryCatch await].
  rewrite Hduties, Hfork. cbn [nextAttesterDuties calls].
  destruct (forOf_known fork genesisValidatorsRoot known
              (mkService (nextAttesterDuties s)
                 ((calls s ++ [GetAttesterDuties epoch]) ++ [GetFork])) Hknown)
    as (s' & Hloop & Hat & Hcalls).
  exists s'. split; [|split; [exact Hat|]].
  - rewrite forOf_app, Hloop. cbn [forOf]. unfold mbind, Act_bind.
    rewrite registerDuty_unknown by by apply keypairOf_None. reflexivity.
  - rewrite Hcalls. cbn [calls]. rewrite !filter_app. cbn. by rewrite !app_nil_r.
Qed.

(** [getFork] is awaited outside the [try]: when the duties are
    answered and the fork is not, [updateDuties] throws the error of
    [getFork] as it is. No duty is looked at: nothing is signed, kept,
    subscribed or logged. *)
Theorem updateDuties_fork_failure (epoch : Epoch) (duties : list AttesterDuty)
  (e : Error) (s : Service) :
  getAttesterDuties epoch publicKeys = Return duties →
  getFork = Throw e →
  updateDuties epoch s
  = (Throw e,
     mkService (nextAttesterDuties s) (calls s ++ [GetAttesterDuties epoch; GetFork])).
Proof.
  intros Hduties Hfork. unfold updateDuties.
  cbv [mbind Act_bind mret Act_ret record tryCatch await].
  rewrite Hduties, Hfork. cbn [nextAttesterDuties calls]. by rewrite <- app_assoc.
Qed.

(** Whatever the beacon node answers and however the call ends,
    [updateDuties] drops no duty that was kept, leaves no slot with an
    empty map of duties when there was none, and only adds to the calls
    made. *)
Theorem updateDuties_keeps_duties (epoch : Epoch) (s s' : Service)
  (r : Completion unit) :
  updateDuties epoch s = (r, s') →
  (∀ slot i, is_Some (dutyAt (nextAttesterDuties s) slot i) →
             is_Some (dutyAt (nextAttesterDuties s') slot i)) ∧
  (noEmptySlot (nextAttesterDuties s) → noEmptySlot (nextAttesterDuties s')) ∧
  calls s `prefix_of` calls s'.
Proof.
  intros Hrun. change (grows s s'). replace s' with (updateDuties epoch s).2
    by by rewrite Hrun.
  clear Hrun. unfold updateDuties.
  cbv [mbind Act_bind mret Act_ret tryCatch await].
  eapply grows_trans; [apply (record_grows (GetAttesterDuties epoch))|].
  destruct (record (GetAttesterDuties epoch) s) as [[[]|e0] s0] eqn:Hs0;
    [|discriminate Hs0].
  cbn [snd]. destruct (getAttesterDuties epoch publicKeys) as [duties|e].
  - eapply grows_trans; [apply (record_grows GetFork)|].
    destruct (record GetFork s0) as [[[]|e1] s1] eqn:Hs1; [|discriminate Hs1].
    cbn [snd]. destruct getFork as [[fork genesisValidatorsRoot]|e]; [|apply grows_refl].
    apply forOf_grows.
  - apply record_grows.
Qed.

(** Whatever is published by [aggregateAttestations] is the aggregate
    the beacon node produced, with the selection proof replaced by the
    signature of the validator's own key over the slot of the duty, and
    signed with that key over the message as published; the call then
    returns, and its last line in the log tells whether the publication
    went through or failed. When the beacon node fails to produce the
    aggregate the call returns with that failure logged, with or without a
    private key: nothing is signed or published. The call throws only a
    [TypeError], exactly when an aggregate was produced and there is no
    private key at the index, and then nothing is signed, published or
    logged as failed. The duties kept are not touched. *)
Theorem aggregateAttestations_publishes_own_proof (attesterIndex : Z)
  (duty : IAttesterDuty) (attestation : Attestation) (fork : Fork)
  (genesisValidatorsRoot : Root) (s s' : Service) (r : Completion unit) :
  aggregateAttestations attesterIndex duty attestation fork genesisValidatorsRoot s
    = (r, s') →
  let produced :=
    produceAggregateAndProof (data attestation) (duty_validatorPubkey duty) in
  let asked :=
    [ LogInfo ("Aggregating attestations" +:+ ofDuty duty);
      ProduceAggregateAndProof (data attestation) (duty_validatorPubkey duty) ] in
  nextAttesterDuties s' = nextAttesterDuties s ∧
  ∃ new,
    calls s' = calls s ++ new ∧
    (∀ signed, PublishAggregateAndProof signed ∈ new →
       (∃ sk aggregateAndProof,
          index privateKeys attesterIndex = Some sk ∧
          produced = Return aggregateAndProof ∧
          message signed
            = {| aggregatorIndex := aggregatorIndex aggregateAndProof;
                 aggregate := aggregate aggregateAndProof;
                 selectionProof :=
                   signMessage sk
                     (slotSigningRoot fork genesisValidatorsRoot
                        (duty_attestationSlot duty)) |} ∧
          signed_signature signed
            = signMessage sk
                (computeSigningRootOfAggregateAndProof (message signed)
                   (getDomain fork genesisValidatorsRoot AGGREGATE_AND_PROOF
                      (computeEpochAtSlot
                         (ad_slot (data (aggregate aggregateAndProof))))))) ∧
       r = Return tt ∧
       last new
       = Some (match publishAggregateAndProof signed with
               | Return _ =>
                   LogInfo ("Published signed aggregate and proof" +:+ ofDuty duty)
               | Throw _ =>
                   LogError ("Failed to publish aggregate and proof" +:+ ofDuty duty)
               end)) ∧
    (∀ e, produced = Throw e →
          r = Return tt ∧
          new = asked ++ [LogError "Failed to produce aggregate and proof"]) ∧
    (∀ aggregateAndProof sk,
       produced = Return aggregateAndProof →
       index privateKeys attesterIndex = Some sk →
       ∃ signed, PublishAggregateAndProof signed ∈ new) ∧
    (∀ aggregateAndProof,
       produced = Return aggregateAndProof →
       index privateKeys attesterIndex = None →
       r = Throw TypeError ∧ new = asked) ∧
    (r = Return tt ∨ r = Throw TypeError).
Proof.
  cbv zeta.
  unfold aggregateAttestations, getAggregateAndProofSignature, getSlotSignature,
    signWith, slotSigningRoot.
  cbv [mbind Act_bind mret Act_ret record tryCatch await].
  cbn [nextAttesterDuties calls].
  destruct (produceAggregateAndProof _ _) as [aggregateAndProof|e].
  - destruct (index privateKeys attesterIndex) as [sk|].
    + cbn [nextAttesterDuties calls aggregate].
      destruct (publishAggregateAndProof _) as [[]|e] eqn:Hpublish;
        intros [= <- <-]; (split; [reflexivity|]); cbn [calls];
        rewrite <- !app_assoc; eexists; (split; [reflexivity|]); cbn [app];
        (split; [|split; [done|split; [|split; [done|by left]]]]).
      * intros signed Hin.
        repeat (apply elem_of_cons in Hin as [Hin|Hin]; [try discriminate Hin|]);
          try (by apply elem_of_nil in Hin).
        injection Hin as ->. rewrite Hpublish.
        split; [by exists sk, aggregateAndProof|done].
      * intros _ _ _ _. eexists.
        repeat first [apply list_elem_of_here|apply list_elem_of_further].
      * intros signed Hin.
        repeat (apply elem_of_cons in Hin as [Hin|Hin]; [try discriminate Hin|]);
          try (by apply elem_of_nil in Hin).
        injection Hin as ->. rewrite Hpublish.
        split; [by exists sk, aggregateAndProof|done].
      * intros _ _ _ _. eexists.
        repeat first [apply list_elem_of_here|apply list_elem_of_further].
    + intros [= <- <-]. split; [reflexivity|]. cbn [calls].
      rewrite <- !app_assoc. eexists. split; [reflexivity|]. cbn [app].
      split; [|split; [done|split; [done|split; [done|by right]]]].
      intros signed Hin.
      repeat (apply elem_of_cons in Hin as [Hin|Hin]; [discriminate Hin|]).
      by apply elem_of_nil in Hin.
  - intros [= <- <-]. split; [reflexivity|]. cbn [calls].
    rewrite <- !app_assoc. eexists. split; [reflexivity|]. cbn [app].
    split; [|split; [done|split; [done|split; [done|by left]]]].
    intros signed Hin.
    repeat (apply elem_of_cons in Hin as [Hin|Hin]; [discriminate Hin|]).
    by apply elem_of_nil in Hin.
Qed.

End Duties.

(** *** A service with two validators *)

Definition keyB : BLSPubkey := [xb1; xb2].
Definition keyC : BLSPubkey := [xc1].

Definition sampleKeypairs : list (Keypair Bytes) :=
  [mkKeypair Bytes [x77] keyA; mkKeypair Bytes [x78; x79] keyB].

Definition sampleSign (sk : Bytes) (signingRoot : Bytes) : BLSSignature :=
  sk ++ signingRoot.

Definition sampleDomain (fork : Fork) (genesisValidatorsRoot : Root)
  (domainType : DomainType) (epoch : Epoch) : Bytes :=
  match domainType with
  | BEACON_ATTESTER => [x01]
  | SELECTION_PROOF => [x05]
  | AGGREGATE_AND_PROOF => [x06]
  end.

(** A validator is an aggregator when the modulo divides the number of
    bytes of its signature. *)
Definition sampleIsAggregator (slotSignature : BLSSignature) (modulo : Z) : bool :=
  (Z.of_nat (length slotSignature) mod modulo =? 0)%Z.

(** Duties of the second validator, the first, and the second again, in
    one slot. *)
Definition sampleDuties : list AttesterDuty :=
  [ mkAttesterDuty keyB 3 322 2; mkAttesterDuty keyA 3 322 2;
    mkAttesterDuty keyB 3 322 5 ].

Definition sampleUpdateDuties (answer : Completion (list AttesterDuty))
  (subscribed : Completion unit) : Epoch → Act unit :=
  updateDuties Bytes sampleSign sampleDomain (λ slot, (slot / 32)%Z)
    (λ _ domain, domain) sampleIsAggregator (λ _ _, answer)
    (Return (sampleFork, [x00])) (λ _ _ _ _, subscribed) sampleKeypairs.

Lemma updateDuties_provider_failure_witness :
  sampleUpdateDuties (Throw (ErrorMessage "node is syncing")) (Return tt) 10%Z
    (mkService ∅ [])
  = (Return tt,
     mkService ∅
       [GetAttesterDuties 10%Z; LogError "Failed to obtain attester duty for epoch 10"]).
Proof.
  apply (updateDuties_provider_failure Bytes sampleSign sampleDomain
           (λ slot, (slot / 32)%Z) (λ _ domain, domain) sampleIsAggregator
           (λ _ _, Throw (ErrorMessage "node is syncing"))
           (Return (sampleFork, [x00])) (λ _ _ _ _, Return tt) sampleKeypairs
           10%Z (ErrorMessage "node is syncing") (mkService ∅ [])).
  reflexivity.
Defined.

Lemma sampleDuties_known :
  Forall (λ duty, validatorPubkey duty ∈ publicKeys Bytes sampleKeypairs) sampleDuties.
Proof.
  repeat apply Forall_cons_2; try apply Forall_nil_2;
    apply (bool_decide_unpack _); reflexivity.
Qed.

Lemma updateDuties_registers_witness :
  ∃ s',
    sampleUpdateDuties (Return sampleDuties) (Throw (ErrorMessage "no peers")) 10%Z
      (mkService ∅ [])
    = (Return tt, s') ∧
    (∀ slot i,
       dutyAt (nextAttesterDuties s') slot i
       = match last (dutiesFor Bytes sampleKeypairs slot i sampleDuties) with
         | Some duty =>
             keptDuty Bytes sampleSign sampleDomain (λ slot, (slot / 32)%Z)
               (λ _ domain, domain) sampleIsAggregator sampleKeypairs
               sampleFork [x00] duty
         | None => dutyAt ∅ slot i
         end) ∧
    filter isSubscribe (calls s')
    = [] ++ omap (subscriptionOf Bytes sampleSign sampleDomain (λ slot, (slot / 32)%Z)
                    (λ _ domain, domain) sampleIsAggregator sampleKeypairs
                    sampleFork [x00])
              sampleDuties.
Proof.
  apply (updateDuties_registers Bytes sampleSign sampleDomain
           (λ slot, (slot / 32)%Z) (λ _ domain, domain) sampleIsAggregator
           (λ _ _, Return sampleDuties)
           (Return (sampleFork, [x00])) (λ _ _ _ _, Throw (ErrorMessage "no peers"))
           sampleKeypairs 10%Z sampleDuties sampleFork [x00] (mkService ∅ [])).
  - reflexivity.
  - reflexivity.
  - exact sampleDuties_known.
Defined.

(** The run of the sample: the second duty of the second validator
    replaces its first, both of its subscriptions are asked for although
    each fails, and the first validator is no aggregator. *)
Example updateDuties_sample :
  let s' :=
    (sampleUpdateDuties (Return sampleDuties) (Throw (ErrorMessage "no peers")) 10%Z
       (mkService ∅ [])).2 in
  dutyAt (nextAttesterDuties s') 322 0
    = Some (mkIAttesterDuty keyA 3 322 2 0 false) ∧
  dutyAt (nextAttesterDuties s') 322 1
    = Some (mkIAttesterDuty keyB 3 322 5 1 true) ∧
  calls s'
  = [ GetAttesterDuties 10%Z; GetFork;
      SignMessage 1 [x05]; LogDebug "new attester duty";
      SubscribeCommitteeSubnet 322 [x78; x79; x05] 2 (Some keyB);
      LogError "Failed to subscribe to committee subnet";
      SignMessage 0 [x05]; LogDebug "new attester duty";
      SignMessage 1 [x05]; LogDebug "new attester duty";
      SubscribeCommitteeSubnet 322 [x78; x79; x05] 5 (Some keyB);
      LogError "Failed to subscribe to committee subnet" ].
Proof. vm_compute. repeat split. Qed.

Lemma updateDuties_unknown_pubkey_witness :
  ∃ s',
    sampleUpdateDuties
      (Return ([mkAttesterDuty keyA 3 322 2] ++
               mkAttesterDuty keyC 1 322 2 :: [mkAttesterDuty keyB 3 322 2]))
      (Return tt) 10%Z (mkService ∅ [])
    = (Throw TypeError, s') ∧
    (∀ slot i,
       dutyAt (nextAttesterDuties s') slot i
       = match last (dutiesFor Bytes sampleKeypairs slot i [mkAttesterDuty keyA 3 322 2]) with
         | Some duty =>
             keptDuty Bytes sampleSign sampleDomain (λ slot, (slot / 32)%Z)
               (λ _ domain, domain) sampleIsAggregator sampleKeypairs
               sampleFork [x00] duty
         | None => dutyAt ∅ slot i
         end) ∧
    filter isSubscribe (calls s')
    = [] ++ omap (subscriptionOf Bytes sampleSign sampleDomain (λ slot, (slot / 32)%Z)
                    (λ _ domain, domain) sampleIsAggregator sampleKeypairs
                    sampleFork [x00])
              [mkAttesterDuty keyA 3 322 2].
Proof.
  apply (updateDuties_unknown_pubkey Bytes sampleSign sampleDomain
           (λ slot, (slot / 32)%Z) (λ _ domain, domain) sampleIsAggregator
           (λ _ _, Return ([mkAttesterDuty keyA 3 322 2] ++
                           mkAttesterDuty keyC 1 322 2 :: [mkAttesterDuty keyB 3 322 2]))
           (Return (sampleFork, [x00])) (λ _ _ _ _, Return tt)
           sampleKeypairs 10%Z [mkAttesterDuty keyA 3 322 2]
           (mkAttesterDuty keyC 1 322 2) [mkAttesterDuty keyB 3 322 2]
           sampleFork [x00] (mkService ∅ [])).
  - reflexivity.
  - reflexivity.
  - apply Forall_cons_2; [|apply Forall_nil_2].
    apply (bool_decide_unpack _). reflexivity.
  - apply (bool_decide_unpack _). reflexivity.
Defined.

(** In that run the duty of the second validator, answered after the
    one of the unknown validator, is not kept. *)
Example updateDuties_unknown_sample :
  let s' :=
    (sampleUpdateDuties
       (Return [mkAttesterDuty keyA 3 322 2; mkAttesterDuty keyC 1 322 2;
                mkAttesterDuty keyB 3 322 2])
       (Return tt) 10%Z (mkService ∅ [])).2 in
  dutyAt (nextAttesterDuties s') 322 0 = Some (mkIAttesterDuty keyA 3 322 2 0 false) ∧
  dutyAt (nextAttesterDuties s') 322 1 = None ∧
  dutyAt (nextAttesterDuties s') 322 (-1) = None.
Proof. vm_compute. repeat split. Qed.

Lemma updateDuties_fork_failure_witness :
  updateDuties Bytes sampleSign sampleDomain (λ slot, (slot / 32)%Z)
    (λ _ domain, domain) sampleIsAggregator (λ _ _, Return sampleDuties)
    (Throw (ErrorMessage "node is syncing")) (λ _ _ _ _, Return tt) sampleKeypairs
    10%Z (mkService ∅ [])
  = (Throw (ErrorMessage "node is syncing"),
     mkService ∅ [GetAttesterDuties 10%Z; GetFork]).
Proof.
  apply (updateDuties_fork_failure Bytes sampleSign sampleDomain
           (λ slot, (slot / 32)%Z) (λ _ domain, domain) sampleIsAggregator
           (λ _ _, Return sampleDuties)
           (Throw (ErrorMessage "node is syncing")) (λ _ _ _ _, Return tt)
           sampleKeypairs 10%Z sampleDuties (ErrorMessage "node is syncing")
           (mkService ∅ [])).
  - reflexivity.
  - reflexivity.
Defined.

Lemma updateDuties_keeps_duties_witness :
  let s := mkService {[ 321%Z := {[ 0%Z := mkIAttesterDuty keyA 2 321 4 0 false ]} ]} [] in
  let s' := (sampleUpdateDuties (Return sampleDuties) (Return tt) 10%Z s).2 in
  (∀ slot i, is_Some (dutyAt (nextAttesterDuties s) slot i) →
             is_Some (dutyAt (nextAttesterDuties s') slot i)) ∧
  (noEmptySlot (nextAttesterDuties s) → noEmptySlot (nextAttesterDuties s')) ∧
  calls s `prefix_of` calls s'.
Proof.
  intros s s'.
  apply (updateDuties_keeps_duties Bytes sampleSign sampleDomain
           (λ slot, (slot / 32)%Z) (λ _ domain, domain) sampleIsAggregator
           (λ _ _, Return sampleDuties)
           (Return (sampleFork, [x00])) (λ _ _ _ _, Return tt)
           sampleKeypairs 10%Z s s' (Return tt)).
  vm_compute. reflexivity.
Defined.

Definition sampleAggregate : AggregateAndProof :=
  mkAggregateAndProof 17 newerAttestation [xee].

Definition sampleAggregateAttestations (produced : Completion AggregateAndProof)
  (published : Completion unit) : Z → IAttesterDuty → Attestation → Fork → Root → Act unit :=
  aggregateAttestations Bytes sampleSign sampleDomain (λ slot, (slot / 32)%Z)
    (λ _ domain, domain) (λ aggregateAndProof domain,
                            selectionProof aggregateAndProof ++ domain)
    (λ _ _, produced) (λ _, published) sampleKeypairs.

Lemma aggregateAttestations_publishes_own_proof_witness :
  let duty := mkIAttesterDuty keyB 3 354 5 1 true in
  let s := mkService ∅ [] in
  let publish : SignedAggregateAndProof → Completion unit :=
    λ _, Throw (ErrorMessage "no peers") in
  let run := sampleAggregateAttestations (Return sampleAggregate)
               (Throw (ErrorMessage "no peers"))
               1%Z duty newerAttestation sampleFork [x00] s in
  let produced : Completion AggregateAndProof := Return sampleAggregate in
  let asked :=
    [ LogInfo "Aggregating attestations for committee 5 at slot 354";
      ProduceAggregateAndProof (data newerAttestation) keyB ] in
  nextAttesterDuties run.2 = nextAttesterDuties s ∧
  ∃ new,
    calls run.2 = calls s ++ new ∧
    (∀ signed, PublishAggregateAndProof signed ∈ new →
       (∃ sk aggregateAndProof,
          index (privateKeys Bytes sampleKeypairs) 1%Z = Some sk ∧
          produced = Return aggregateAndProof ∧
          message signed
            = {| aggregatorIndex := aggregatorIndex aggregateAndProof;
                 aggregate := aggregate aggregateAndProof;
                 selectionProof :=
                   sampleSign sk
                     (slotSigningRoot sampleDomain (λ slot, (slot / 32)%Z)
                        (λ _ domain, domain) sampleFork [x00] 354%Z) |} ∧
          signed_signature signed
            = sampleSign sk
                (selectionProof (message signed) ++
                 sampleDomain sampleFork [x00] AGGREGATE_AND_PROOF
                   (ad_slot (data (aggregate aggregateAndProof)) / 32)%Z)) ∧
       run.1 = Return tt ∧
       last new
       = Some (match publish signed with
               | Return _ =>
                   LogInfo "Published signed aggregate and proof for committee 5 at slot 354"
               | Throw _ =>
                   LogError "Failed to publish aggregate and proof for committee 5 at slot 354"
               end)) ∧
    (∀ e, produced = Throw e →
          run.1 = Return tt ∧
          new = asked ++ [LogError "Failed to produce aggregate and proof"]) ∧
    (∀ aggregateAndProof sk,
       produced = Return aggregateAndProof →
       index (privateKeys Bytes sampleKeypairs) 1%Z = Some sk →
       ∃ signed, PublishAggregateAndProof signed ∈ new) ∧
    (∀ aggregateAndProof,
       produced = Return aggregateAndProof →
       index (privateKeys Bytes sampleKeypairs) 1%Z = None →
       run.1 = Throw TypeError ∧ new = asked) ∧
    (run.1 = Return tt ∨ run.1 = Throw TypeError).
Proof.
  intros duty s publish run produced asked.
  apply (aggregateAttestations_publishes_own_proof Bytes sampleSign sampleDomain
           (λ slot, (slot / 32)%Z) (λ _ domain, domain)
           (λ aggregateAndProof domain, selectionProof aggregateAndProof ++ domain)
           (λ _ _, Return sampleAggregate) publish sampleKeypairs
           1%Z duty newerAttestation sampleFork [x00] s run.2 run.1).
  vm_compute. reflexivity.
Defined.

(** The aggregate as published in that run: the selection proof [ee] of
    the beacon node is gone. *)
Example aggregateAttestations_sample :
  calls (sampleAggregateAttestations (Return sampleAggregate)
           (Throw (ErrorMessage "no peers")) 1%Z (mkIAttesterDuty keyB 3 354 5 1 true)
           newerAttestation sampleFork [x00] (mkService ∅ [])).2
  = [ LogInfo "Aggregating attestations for committee 5 at slot 354";
      ProduceAggregateAndProof (data newerAttestation) keyB;
      SignMessage 1 [x05];
      SignMessage 1 [x78; x79; x05; x06];
      PublishAggregateAndProof
        {| message := mkAggregateAndProof 17 newerAttestation [x78; x79; x05];
           signed_signature := [x78; x79; x78; x79; x05; x06] |};
      LogError "Failed to publish aggregate and proof for committee 5 at slot 354" ].
Proof. vm_compute. reflexivity. Qed.

End AttestationService.

(** ** Gossip handlers of attestations

    The handlers of [network/gossip] for attestations received from the
    network, and the publication of an attestation of a committee. They
    are methods of [Gossip]: what they do to it is kept as a trace of its
    log lines, of the events it emits and of what it publishes. *)

Module Gossip.

Import AttestationService.

Inductive Event :=
  | LogVerbose (msg : string)
  | LogWarn (msg : string)
  | EmitAttestation (attestation : Attestation)
  | EmitAttestationSubnet (attestation : Attestation) (subnet : Z)
  | Publish (topic : string) (bytes : Bytes)
  | UnhandledRejection (e : Error).

Definition isEmit (ev : Event) : bool :=
  match ev with
  | EmitAttestation _ | EmitAttestationSubnet _ _ => true
  | _ => false
  end.

Definition isPublish (ev : Event) : bool :=
  match ev with
  | Publish _ _ => true
  | _ => false
  end.

Definition G (A : Type) : Type := list Event → Completion A * list Event.

#[local] Instance G_ret : MRet G := λ A a t, (Return a, t).
#[local] Instance G_bind : MBind G := λ A B f m t,
  match m t with
  | (Return a, t') => f a t'
  | (Throw e, t') => (Throw e, t')
  end.

Definition log (ev : Event) : G unit := λ t, (Return tt, t ++ [ev]).

(** A call that returns or throws, or an awaited promise. *)
Definition await {A : Type} (c : Completion A) : G A := λ t, (c, t).

(** [try { body } catch (e) { handler }] *)
Definition tryCatch {A : Type} (body : G A) (handler : Error → G A) : G A :=
  λ t, match body t with
       | (Return a, t') => (Return a, t')
       | (Throw e, t') => handler e t'
       end.

(** [promise.then(callback)] as a statement: the caller goes on, and the
    promise [then] returns is dropped; when it is rejected (the first
    promise was, or the callback threw) nothing handles the rejection. The
    callback runs once the caller has returned; the handlers do nothing
    after the call of [then], so the trace is in the order of time. *)
Definition thenDropped {A : Type} (promise : Completion A) (callback : A → G unit)
  : G unit :=
  λ t, match promise with
       | Return a =>
           match callback a t with
           | (Return _, t') => (Return tt, t')
           | (Throw e, t') => (Return tt, t' ++ [UnhandledRejection e])
           end
       | Throw e => (Return tt, t ++ [UnhandledRejection e])
       end.

(** The cases of an event that is one of a list that is written out. *)
Ltac in_list H :=
  cbn [app] in H;
  repeat (apply elem_of_cons in H as [H|H]);
  try (by apply elem_of_nil in H).

Section Handlers.
Variable IGossipMessage : Type.
(** From [../utils] and the SSZ type of attestations. *)
Variable deserializeGossipMessage : IGossipMessage → Completion Attestation.
Variable getAttestationSubnet : Attestation → Z.
Variable getAttestationSubnetTopic : Attestation → string.
(** [getGossipTopic(GossipEvent.ATTESTATION)] *)
Variable attestationTopic : string.
Variable serialize : Attestation → Bytes.
(** The two checks of [IGossipMessageValidator], as the promises they
    return are settled. *)
Variable isValidIncomingUnaggregatedAttestation : Attestation → Completion bool.
Variable isValidIncomingCommitteeAttestation : Attestation → Z → Completion bool.
(** [promisify(this.pubsub.publish.bind(this.pubsub))], awaited. *)
Variable pubsubPublish : string → Bytes → Completion unit.

Definition handleIncomingAttestation (msg : IGossipMessage) : G unit :=
  tryCatch
    (attestation ← await (deserializeGossipMessage msg);
     log (LogVerbose "Received attestation");;
     valid ← await (isValidIncomingUnaggregatedAttestation attestation);
     if valid : bool then log (EmitAttestation attestation) else mret tt)
    (λ e, log (LogWarn "Incoming attestation error")).

Definition handleIncomingCommitteeAttestation (subnet : Z) (msg : IGossipMessage)
  : G unit :=
  tryCatch
    (attestation ← await (deserializeGossipMessage msg);
     log (LogVerbose "Received committee attestation");;
     thenDropped (isValidIncomingCommitteeAttestation attestation subnet)
       (λ isValid : bool,
          if isValid then log (EmitAttestationSubnet attestation subnet)
          else mret tt))
    (λ e, log (LogWarn "Incoming committee attestation error")).

Definition publish (topic : string) (bytes : Bytes) : G unit :=
  log (Publish topic bytes);; await (pubsubPublish topic bytes).

Definition publishCommiteeAttestation (attestation : Attestation) : G unit :=
  let subnet := getAttestationSubnet attestation in
  publish (getAttestationSubnetTopic attestation) (serialize attestation);;
  (* backward compatible *)
  publish attestationTopic (serialize attestation);;
  log (LogVerbose "Publishing attestation").

(** *** What the handlers let through *)

(** [handleIncomingAttestation] never throws. It emits the attestation
    exactly when the message deserializes to it and the validator accepts
    it, and at most once; it logs a warning exactly when the
    deserialization or the validator throws; nothing is published and no
    rejection is left unhandled. *)
Theorem handleIncomingAttestation_emits_valid (msg : IGossipMessage)
  (t : list Event) :
  ∃ new,
    handleIncomingAttestation msg t = (Return tt, t ++ new) ∧
    (∀ attestation,
       EmitAttestation attestation ∈ new ↔
       deserializeGossipMessage msg = Return attestation ∧
       isValidIncomingUnaggregatedAttestation attestation = Return true) ∧
    (∀ warning,
       LogWarn warning ∈ new ↔
       warning = "Incoming attestation error" ∧
       ((∃ e, deserializeGossipMessage msg = Throw e) ∨
        (∃ attestation e,
           deserializeGossipMessage msg = Return attestation ∧
           isValidIncomingUnaggregatedAttestation attestation = Throw e))) ∧
    (length (filter isEmit new) ≤ 1)%nat ∧
    (∀ ev, ev ∈ new →
       match ev with
       | LogVerbose _ | LogWarn _ | EmitAttestation _ => True
       | EmitAttestationSubnet _ _ | Publish _ _ | UnhandledRejection _ => False
       end).
Proof.
  clear getAttestationSubnet getAttestationSubnetTopic attestationTopic serialize
    isValidIncomingCommitteeAttestation pubsubPublish.
  unfold handleIncomingAttestation.
  cbv [tryCatch mbind G_bind mret G_ret await log].
  destruct (deserializeGossipMessage msg) as [attestation|e] eqn:Hmsg;
    [destruct (isValidIncomingUnaggregatedAttestation attestation) as [[]|e] eqn:Hvalid|];
    rewrite <- ?app_assoc, ?app_nil_r; eexists; (split; [reflexivity|]); cbn [app];
    (split; [|split; [|split; [vm_compute; lia|]]]).
  all: try (intros ev Hin; in_list Hin; by subst).
  all: intros x; split; [intros Hin; in_list Hin; try discriminate Hin|].
  - injection Hin as <-. done.
  - intros [[= <-] _]. set_solver.
  - intros [_ [[e [=]]|(a & e & [= <-] & He)]]. congruence.
  - intros [[= <-] Ha]. congruence.
  - intros [_ [[e [=]]|(a & e & [= <-] & He)]]. congruence.
  - intros [[= <-] Ha]. congruence.
  - injection Hin as <-. split; [done|]. right. by exists attestation, e.
  - intros [-> _]. set_solver.
  - intros [[=] _].
  - injection Hin as <-. split; [done|]. left. by exists e.
  - intros [-> _]. set_solver.
Qed.

(** [handleIncomingCommitteeAttestation] never throws either, but its
    [try] covers only the deserialization: a warning is logged exactly when
    the message does not deserialize. The attestation is emitted for the
    subnet of the handler exactly when it deserializes and the validator
    accepts it; when the validator rejects, nothing catches the
    rejection and no warning is logged. *)
Theorem handleIncomingCommitteeAttestation_rejection_unhandled (subnet : Z)
  (msg : IGossipMessage) (t : list Event) :
  ∃ new,
    handleIncomingCommitteeAttestation subnet msg t = (Return tt, t ++ new) ∧
    (∀ attestation n,
       EmitAttestationSubnet attestation n ∈ new ↔
       n = subnet ∧
       deserializeGossipMessage msg = Return attestation ∧
       isValidIncomingCommitteeAttestation attestation subnet = Return true) ∧
    (∀ warning,
       LogWarn warning ∈ new ↔
       warning = "Incoming committee attestation error" ∧
       ∃ e, deserializeGossipMessage msg = Throw e) ∧
    (∀ e,
       UnhandledRejection e ∈ new ↔
       ∃ attestation,
         deserializeGossipMessage msg = Return attestation ∧
         isValidIncomingCommitteeAttestation attestation subnet = Throw e) ∧
    (length (filter isEmit new) ≤ 1)%nat ∧
    (∀ ev, ev ∈ new →
       match ev with
       | EmitAttestation _ | Publish _ _ => False
       | _ => True
       end).
Proof.
  clear getAttestationSubnet getAttestationSubnetTopic attestationTopic serialize
    isValidIncomingUnaggregatedAttestation pubsubPublish.
  unfold handleIncomingCommitteeAttestation.
  cbv [tryCatch thenDropped mbind G_bind mret G_ret await log].
  destruct (deserializeGossipMessage msg) as [attestation|e] eqn:Hmsg;
    [destruct (isValidIncomingCommitteeAttestation attestation subnet)
       as [[]|e] eqn:Hvalid|];
    rewrite <- ?app_assoc, ?app_nil_r; eexists; (split; [reflexivity|]); cbn [app];
    (split; [|split; [|split; [|split; [vm_compute; lia|]]]]).
  all: try (intros ev Hin; in_list Hin; by subst).
  all: try (intros x y; split; [intros Hin; in_list Hin; try discriminate Hin|]).
  all: try (intros x; split; [intros Hin; in_list Hin; try discriminate Hin|]).
  - injection Hin as <- <-. done.
  - intros (-> & [= <-] & _). set_solver.
  - intros [_ [e [=]]].
  - intros (a & [= <-] & Ha). congruence.
  - intros (_ & [= <-] & Ha). congruence.
  - intros [_ [e [=]]].
  - intros (a & [= <-] & Ha). congruence.
  - intros (_ & [= <-] & Ha). congruence.
  - intros [_ [e' [=]]].
  - injection Hin as <-. by exists attestation.
  - intros (a & [= <-] & Ha). rewrite Hvalid in Ha. injection Ha as <-. set_solver.
  - intros (_ & [=] & _).
  - injection Hin as <-. split; [done|]. by exists e.
  - intros [-> _]. set_solver.
  - intros (a & [=] & _).
Qed.

(** [publishCommiteeAttestation] publishes the same bytes to the topic
    of the subnet and then to the topic of all attestations. It returns
    exactly when both publications go through. When the first fails the
    second is not tried; either failure is thrown on as it is, and the
    line of the log is written only after both went through. *)
Theorem publishCommiteeAttestation_subnet_first (attestation : Attestation)
  (t : list Event) :
  let bytes := serialize attestation in
  let subnetTopic := getAttestationSubnetTopic attestation in
  ∃ new,
    (publishCommiteeAttestation attestation t).2 = t ++ new ∧
    (publishCommiteeAttestation attestation t).1
    = (pubsubPublish subnetTopic bytes;; pubsubPublish attestationTopic bytes) ∧
    filter isPublish new
    = Publish subnetTopic bytes ::
      match pubsubPublish subnetTopic bytes with
      | Return _ => [Publish attestationTopic bytes]
      | Throw _ => []
      end ∧
    (LogVerbose "Publishing attestation" ∈ new ↔
     (publishCommiteeAttestation attestation t).1 = Return tt) ∧
    (∀ ev, ev ∈ new →
       match ev with
       | Publish _ _ | LogVerbose _ => True
       | _ => False
       end).
Proof.
  clear deserializeGossipMessage isValidIncomingUnaggregatedAttestation
    isValidIncomingCommitteeAttestation.
  cbv zeta. unfold publishCommiteeAttestation, publish.
  cbv [mbind G_bind Completion_bind mret G_ret await log].
  destruct (pubsubPublish (getAttestationSubnetTopic attestation) _) as [[]|e];
    [destruct (pubsubPublish attestationTopic _) as [[]|e]|];
    cbn [fst snd]; rewrite <- ?app_assoc; eexists; (split; [reflexivity|]); cbn [app];
    (split; [reflexivity|]); (split; [reflexivity|]).
  all: split; [|intros ev Hin; in_list Hin; by subst].
  all: split; [intros Hin; in_list Hin; try discriminate Hin|intros H; try discriminate H].
  - done.
  - set_solver.
Qed.

End Handlers.

End Gossip.


(** ** The stages of the epoch transition

    The stage functions are imported by the performance suite from
    [src/fast/epoch] and [src/fast/util]; the definitions below follow the
    specification of the stages. *)

Module Epoch.

(** Modelled from the spec: the constants of the configuration the stages
    read (the preset itself is not part of the sources). *)
Record IBeaconParams := mkParams {
  GENESIS_EPOCH : Epoch;
  FAR_FUTURE_EPOCH : Epoch;
  MAX_SEED_LOOKAHEAD : Epoch;
  MAX_EFFECTIVE_BALANCE : Gwei;
  BASE_REWARD_FACTOR : N;
  BASE_REWARDS_PER_EPOCH : N;
  MIN_PER_EPOCH_CHURN_LIMIT : N;
  CHURN_LIMIT_QUOTIENT : N
}.
Arguments mkParams _%_Z _%_Z _%_Z _%_N _%_N _%_N _%_N _%_N.

(** The values of the mainnet preset. *)
Definition mainnet : IBeaconParams :=
  mkParams 0 18446744073709551615 4 32000000000 64 4 4 65536.

(** Modelled from the spec: the per-validator entry of the EpochProcess
    working set (section 3): the status flags and the inclusion delay. *)
Record IAttesterStatus := mkStatus {
  activeCurrentEpoch : bool;
  activePreviousEpoch : bool;
  attestedCurrentEpoch : bool;
  attestedCurrentEpochTarget : bool;
  attestedPreviousEpoch : bool;
  attestedPreviousEpochTarget : bool;
  attestedPreviousEpochHead : bool;
  inclusionDelay : Z
}.

(** Modelled from the spec: the EpochProcess working set (section 3): the
    epoch boundary it was computed at, the per-validator statuses and the
    scalar aggregates. *)
Record IEpochProcess := mkProcess {
  prevEpoch : Epoch;
  currentEpoch : Epoch;
  statuses : list IAttesterStatus;
  totalActiveStake : Gwei;
  prevEpochUnslashedTargetStake : Gwei;
  prevEpochUnslashedHeadStake : Gwei;
  currEpochUnslashedTargetStake : Gwei
}.
Arguments mkProcess _%_Z _%_Z _ _%_N _%_N _%_N _%_N.

(** *** Rewards and penalties: the base reward *)

(** Modelled from the spec: [integerSqrt], the largest integer whose
    square is at most [n]. *)
Definition integerSqrt (n : N) : N := N.sqrt n.

(** Modelled from the spec: the base reward of section 4.4,
    [effectiveBalance * BASE_REWARD_FACTOR / integerSqrt(totalActiveStake)
    / BASE_REWARDS_PER_EPOCH] on unsigned integers, left to right. A
    division by zero has no result. *)
Definition getBaseReward (cfg : IBeaconParams) (process : IEpochProcess)
  (v : Validator) : option Gwei :=
  let balanceSqRoot := integerSqrt (totalActiveStake process) in
  if (balanceSqRoot =? 0)%N then None
  else if (BASE_REWARDS_PER_EPOCH cfg =? 0)%N then None
  else Some (effectiveBalance v * BASE_REWARD_FACTOR cfg / balanceSqRoot
               / BASE_REWARDS_PER_EPOCH cfg)%N.

(** *** Justification and finalization *)

(** Modelled from the spec: the shift of the justification bitfield by
    one position (section 4.3): the oldest bit is dropped and the newest,
    at position 0, is cleared. *)
Definition shiftBits (bits : list bool) : list bool :=
  match bits with
  | [] => []
  | _ => false :: removelast bits
  end.

Definition bitSet (bits : list bool) (i : nat) : bool := default false (bits !! i).

(** Modelled from the spec: a finalization rule (section 4.3): the
    positions of the bitfield that must be set, the justified checkpoint it
    finalizes, and how many epochs old that checkpoint must be. *)
Record FinalizationRule := mkRule {
  rule_bits : list nat;
  rule_checkpoint : Checkpoint;
  rule_age : Z
}.

Definition ruleMatches (bits : list bool) (current : Epoch) (r : FinalizationRule) : bool :=
  forallb (bitSet bits) (rule_bits r) &&
  (cp_epoch (rule_checkpoint r) + rule_age r =? current)%Z.

(** Modelled from the spec: the four finalization patterns of section
    4.3, highest priority first: the two most recent epochs justified with
    the second-most recent as source; the three most recent with the third
    as source; the second and third with the third as source; the second
    to fourth with the fourth as source. Sources are the justified
    checkpoints the state held on entry. *)
Definition finalizationRules (oldPrevious oldCurrent : Checkpoint)
  : list FinalizationRule :=
  [ mkRule [0; 1]%nat oldCurrent 1;
    mkRule [0; 1; 2]%nat oldCurrent 2;
    mkRule [1; 2]%nat oldPrevious 2;
    mkRule [1; 2; 3]%nat oldPrevious 3 ].

(** Modelled from the spec: of the rules, in priority order, the first
    that matches fires, and only that one; when none matches the finalized
    checkpoint stays. *)
Definition finalize (rules : list FinalizationRule) (bits : list bool)
  (current : Epoch) (finalized : Checkpoint) : Checkpoint :=
  match List.find (ruleMatches bits current) rules with
  | Some r => rule_checkpoint r
  | None => finalized
  end.

(** Modelled from the spec: a stake of at least two thirds of the total
    active stake, compared on integers. *)
Definition isSupermajority (stake total : Gwei) : bool := (total * 2 <=? stake * 3)%N.

Section JustificationAndFinalization.
(** The canonical block root at the start of an epoch. *)
Variable getBlockRoot : BeaconState → Epoch → Root.

(** Modelled from the spec: section 4.3. Skipped at the genesis epoch
    and the one after it (section 8); otherwise the previous justified
    checkpoint becomes the current one, the bitfield is shifted, the
    previous and the current epoch are justified (bits 1 and 0) when their
    attesting stake is a supermajority of the total active stake, and the
    first matching finalization rule advances the finalized checkpoint. *)
Definition processJustificationAndFinalization (cfg : IBeaconParams)
  (process : IEpochProcess) (state : BeaconState) : BeaconState :=
  if (currentEpoch process <=? GENESIS_EPOCH cfg + 1)%Z then state
  else
    let oldPrevious := previousJustifiedCheckpoint state in
    let oldCurrent := currentJustifiedCheckpoint state in
    let bits0 := shiftBits (justificationBits state) in
    let prevJustified :=
      isSupermajority (prevEpochUnslashedTargetStake process) (totalActiveStake process) in
    let currJustified :=
      isSupermajority (currEpochUnslashedTargetStake process) (totalActiveStake process) in
    let bits1 := if prevJustified then <[1%nat := true]> bits0 else bits0 in
    let bits2 := if currJustified then <[0%nat := true]> bits1 else bits1 in
    let justified1 :=
      if prevJustified
      then mkCheckpoint (prevEpoch process) (getBlockRoot state (prevEpoch process))
      else oldCurrent in
    let justified2 :=
      if currJustified
      then mkCheckpoint (currentEpoch process) (getBlockRoot state (currentEpoch process))
      else justified1 in
    {| slot := slot state;
       validators := validators state;
       balances := balances state;
       justificationBits := bits2;
       previousJustifiedCheckpoint := oldCurrent;
       currentJustifiedCheckpoint := justified2;
       finalizedCheckpoint :=
         finalize (finalizationRules oldPrevious oldCurrent) bits2
           (currentEpoch process) (finalizedCheckpoint state);
       slashings := slashings state |}.

End JustificationAndFinalization.

(** *** Registry updates *)

Definition setActivationEligibilityEpoch (e : Epoch) (v : Validator) : Validator :=
  {| pubkey := pubkey v;
     effectiveBalance := effectiveBalance v;
     slashed := slashed v;
     activationEligibilityEpoch := e;
     activationEpoch := activationEpoch v;
     exitEpoch := exitEpoch v;
     withdrawableEpoch := withdrawableEpoch v |}.

Definition setActivationEpoch (e : Epoch) (v : Validator) : Validator :=
  {| pubkey := pubkey v;
     effectiveBalance := effectiveBalance v;
     slashed := slashed v;
     activationEligibilityEpoch := activationEligibilityEpoch v;
     activationEpoch := e;
     exitEpoch := exitEpoch v;
     withdrawableEpoch := withdrawableEpoch v |}.

(** Modelled from the spec: the epoch an activation takes effect, the
    first one past the seed look-ahead. *)
Definition computeActivationExitEpoch (cfg : IBeaconParams) (epoch : Epoch) : Epoch :=
  (epoch + 1 + MAX_SEED_LOOKAHEAD cfg)%Z.

(** Modelled from the spec: the number of validators the frozen working
    set flags as active in the current epoch. *)
Definition activeValidatorCount (process : IEpochProcess) : nat :=
  length (filter (λ status, activeCurrentEpoch status = true) (statuses process)).

(** Modelled from the spec: the churn limit of section 4.5,
    [max(MIN_PER_EPOCH_CHURN_LIMIT, activeValidatorCount /
    CHURN_LIMIT_QUOTIENT)]. *)
Definition getChurnLimit (cfg : IBeaconParams) (process : IEpochProcess) : N :=
  N.max (MIN_PER_EPOCH_CHURN_LIMIT cfg)
        (N.of_nat (activeValidatorCount process) / CHURN_LIMIT_QUOTIENT cfg).

(** Modelled from the spec: first pass of section 4.5. The eligibility
    epoch is set, once, when the effective balance is first seen at the
    maximum. *)
Definition eligibilityNewlyObserved (cfg : IBeaconParams) (v : Validator) : bool :=
  (activationEligibilityEpoch v =? FAR_FUTURE_EPOCH cfg)%Z &&
  (effectiveBalance v =? MAX_EFFECTIVE_BALANCE cfg)%N.

Definition markEligibility (cfg : IBeaconParams) (current : Epoch) (v : Validator)
  : Validator :=
  if eligibilityNewlyObserved cfg v
  then setActivationEligibilityEpoch current v
  else v.

(** Modelled from the spec: a validator is eligible for activation when
    its eligibility was recorded at least one full epoch ago and it has not
    been activated yet. *)
Definition isEligibleForActivation (cfg : IBeaconParams) (current : Epoch)
  (v : Validator) : bool :=
  negb (activationEligibilityEpoch v =? FAR_FUTURE_EPOCH cfg)%Z &&
  (activationEligibilityEpoch v + 1 <=? current)%Z &&
  (activationEpoch v =? FAR_FUTURE_EPOCH cfg)%Z.

Definition eligibleAt (cfg : IBeaconParams) (current : Epoch)
  (vs : list Validator) (i : nat) : bool :=
  match vs !! i with
  | Some v => isEligibleForActivation cfg current v
  | None => false
  end.

(** Modelled from the spec: the order of the activation queue (section
    4.5): ascending eligibility epoch, then ascending index. *)
Definition queueKey (vs : list Validator) (i : nat) : Z :=
  default 0%Z (activationEligibilityEpoch <$> vs !! i).

Definition queueOrder (vs : list Validator) (i j : nat) : Prop :=
  (queueKey vs i < queueKey vs j)%Z ∨ (queueKey vs i = queueKey vs j ∧ (i ≤ j)%nat).

#[global] Instance queueOrder_dec (vs : list Validator) (i j : nat) :
  Decision (queueOrder vs i j).
Proof. unfold queueOrder. apply _. Defined.

#[global] Instance queueOrder_total (vs : list Validator) : Total (queueOrder vs).
Proof. intros i j. unfold queueOrder. lia. Qed.

#[global] Instance queueOrder_trans (vs : list Validator) : Transitive (queueOrder vs).
Proof. intros i j k. unfold queueOrder. lia. Qed.

#[global] Instance queueOrder_antisymm (vs : list Validator) : AntiSymm (=) (queueOrder vs).
Proof. intros i j. unfold queueOrder. lia. Qed.

(** Modelled from the spec: the eligible validators in queue order. *)
Definition activationQueue (cfg : IBeaconParams) (current : Epoch)
  (vs : list Validator) : list nat :=
  merge_sort (queueOrder vs)
    (filter (λ i, eligibleAt cfg current vs i = true) (seq 0 (length vs))).

(** Modelled from the spec: the activation of the validator at an
    index. *)
Definition activate (cfg : IBeaconParams) (current : Epoch)
  (vs : list Validator) (i : nat) : list Validator :=
  alter (setActivationEpoch (computeActivationExitEpoch cfg current)) i vs.

(** Modelled from the spec: section 4.5, the two passes one after the
    other: eligibility is recorded, then the validators at the head of the
    activation queue are activated, as many as the churn limit allows. Exit
    initiation, which the specification attributes to external logic, is
    not part of the two passes. *)
Definition processRegistryUpdates (cfg : IBeaconParams) (process : IEpochProcess)
  (state : BeaconState) : BeaconState :=
  let current := currentEpoch process in
  let marked := markEligibility cfg current <$> validators state in
  let queue := activationQueue cfg current marked in
  let churnLimit := N.to_nat (getChurnLimit cfg process) in
  {| slot := slot state;
     validators := foldl (activate cfg current) marked (take churnLimit queue);
     balances := balances state;
     justificationBits := justificationBits state;
     previousJustifiedCheckpoint := previousJustifiedCheckpoint state;
     currentJustifiedCheckpoint := currentJustifiedCheckpoint state;
     finalizedCheckpoint := finalizedCheckpoint state;
     slashings := slashings state |}.

(** A validator was activated between two registries when its activation
    epoch was unset in the first and is set in the second. *)
Definition wasActivated (cfg : IBeaconParams) (vs vs' : list Validator) (i : nat) : bool :=
  match vs !! i, vs' !! i with
  | Some v, Some v' =>
      (activationEpoch v =? FAR_FUTURE_EPOCH cfg)%Z &&
      negb (activationEpoch v' =? FAR_FUTURE_EPOCH cfg)%Z
  | _, _ => false
  end.

(** A valid state keeps its checkpoints in order: the finalized one is not
    newer than the previous justified one, which is not newer than the
    current justified one. *)
Definition checkpointsOrdered (state : BeaconState) : Prop :=
  (cp_epoch (finalizedCheckpoint state)
     ≤ cp_epoch (previousJustifiedCheckpoint state))%Z ∧
  (cp_epoch (previousJustifiedCheckpoint state)
     ≤ cp_epoch (currentJustifiedCheckpoint state))%Z.

Definition sampleValidator : Validator :=
  mkValidator [x01] 32000000000 false 0 0 18446744073709551615 18446744073709551615.
Definition sampleStatus : IAttesterStatus :=
  mkStatus true true true true true true true 1.
Definition sampleProcess : IEpochProcess :=
  mkProcess 9 10 [sampleStatus] 32000000000 32000000000 32000000000 32000000000.
Definition sampleState : BeaconState :=
  mkBeaconState 351 [sampleValidator] [32000000000%N] [true; true; false; false]
    (mkCheckpoint 8 [x08]) (mkCheckpoint 9 [x09]) (mkCheckpoint 7 [x07]) [].

(** *** Finality does not regress *)

Lemma finalize_cases (rules : list FinalizationRule) (bits : list bool)
  (current : Epoch) (finalized : Checkpoint) :
  finalize rules bits current finalized = finalized ∨
  ∃ r, r ∈ rules ∧ ruleMatches bits current r = true ∧
       finalize rules bits current finalized = rule_checkpoint r.
Proof.
  unfold finalize.
  destruct (List.find (ruleMatches bits current) rules) as [r|] eqn:Hfind.
  - right. apply find_some in Hfind as [Hin Hm].
    exists r. split; [by apply list_elem_of_In|done].
  - by left.
Qed.

(** Whatever rule fires, the finalized checkpoint is the one on entry or
    one of the two justified checkpoints on entry. *)
Lemma finalize_source (oldPrevious oldCurrent finalized : Checkpoint)
  (bits : list bool) (current : Epoch) :
  let f := finalize (finalizationRules oldPrevious oldCurrent) bits current finalized in
  f = finalized ∨ f = oldPrevious ∨ f = oldCurrent.
Proof.
  destruct (finalize_cases (finalizationRules oldPrevious oldCurrent)
              bits current finalized) as [->|(r & Hin & _ & ->)]; [by left|].
  right. unfold finalizationRules in Hin.
  repeat (apply elem_of_cons in Hin as [->|Hin]; [simpl; auto|]).
  by apply elem_of_nil in Hin.
Qed.

(** Modelled from the spec: a stage of the transition (sections 2 and
    7): it reads the frozen working set and mutates the state, and it
    completes or aborts with a fatal error. *)
Definition StageOf : Type := IEpochProcess → BeaconState → Completion BeaconState.

(** Modelled from the spec: the finality checkpoints are written by the
    justification and finalization stage only; of the other stages the
    specification lists what they write (section 3 and sections 4.4 to
    4.8: balances, registry epochs, effective balances, the bookkeeping
    vectors, the protocol version), and the finalized checkpoint is not
    among it. *)
Definition keepsFinalized (stage : StageOf) : Prop :=
  ∀ process state state',
    stage process state = Return state' →
    finalizedCheckpoint state' = finalizedCheckpoint state.

Section Transition.
Variable EpochContext : Type.
Variable getBlockRoot : BeaconState → Epoch → Root.
(** The builder of the working set and the four stages of which the
    specification does not fix the arithmetic in full. *)
Variable prepareEpochProcessState : EpochContext → BeaconState → Completion IEpochProcess.
Variable processRewardsAndPenalties : StageOf.
Variable processSlashings : StageOf.
Variable processFinalUpdates : StageOf.
Variable processForkChanged : StageOf.

(** Modelled from the spec: the epoch transition (sections 2 and 5). The
    working set is computed once from the state at the boundary; then the
    six stages run in the fixed order, each on the state the one before it
    left and all on the same working set; a fatal error of any of them
    aborts the transition (section 7). *)
Definition epochTransition (cfg : IBeaconParams) (epochCtx : EpochContext)
  (state : BeaconState) : Completion BeaconState :=
  process ← prepareEpochProcessState epochCtx state;
  state1 ← Return (processJustificationAndFinalization getBlockRoot cfg process state);
  state2 ← processRewardsAndPenalties process state1;
  state3 ← Return (processRegistryUpdates cfg process state2);
  state4 ← processSlashings process state3;
  state5 ← processFinalUpdates process state4;
  processForkChanged process state5.

Lemma finalized_after_justification (cfg : IBeaconParams) (process : IEpochProcess)
  (state : BeaconState) :
  checkpointsOrdered state →
  (cp_epoch (finalizedCheckpoint state)
     ≤ cp_epoch (finalizedCheckpoint
                   (processJustificationAndFinalization getBlockRoot cfg process state)))%Z.
Proof.
  intros [Hfp Hpc]. unfold processJustificationAndFinalization.
  destruct (currentEpoch process <=? GENESIS_EPOCH cfg + 1)%Z; [lia|].
  cbn [finalizedCheckpoint].
  match goal with
  | |- context [finalize ?rules ?bits ?cur ?fin] =>
      destruct (finalize_source (previousJustifiedCheckpoint state)
                  (currentJustifiedCheckpoint state) fin bits cur)
        as [->|[->| ->]]
  end; lia.
Qed.

(** C4: for every state whose checkpoints are in order, the epoch of the
    finalized checkpoint after [processJustificationAndFinalization] is at
    least the epoch of the finalized checkpoint before it, whatever the
    working set; and hence so is the one after the whole transition, when
    it completes: the stages after it, which leave the finalized checkpoint
    to the first stage, do not take it back. *)
Theorem finalized_epoch_monotone (cfg : IBeaconParams) (epochCtx : EpochContext)
  (state : BeaconState) :
  checkpointsOrdered state →
  keepsFinalized processRewardsAndPenalties →
  keepsFinalized processSlashings →
  keepsFinalized processFinalUpdates →
  keepsFinalized processForkChanged →
  (∀ process,
     (cp_epoch (finalizedCheckpoint state)
        ≤ cp_epoch (finalizedCheckpoint
                      (processJustificationAndFinalization getBlockRoot cfg process
                         state)))%Z) ∧
  (∀ state',
     epochTransition cfg epochCtx state = Return state' →
     (cp_epoch (finalizedCheckpoint state) ≤ cp_epoch (finalizedCheckpoint state'))%Z).
Proof.
  intros Hordered Hrewards Hslashings Hfinal Hfork.
  split; [intros process; by apply finalized_after_justification|].
  intros state'. unfold epochTransition.
  destruct (prepareEpochProcessState epochCtx state) as [process|e]; [|discriminate].
  cbn [mbind Completion_bind].
  destruct (processRewardsAndPenalties process _) as [state2|e] eqn:H2; [|discriminate].
  cbn [mbind Completion_bind].
  destruct (processSlashings process _) as [state4|e] eqn:H4; [|discriminate].
  cbn [mbind Completion_bind].
  destruct (processFinalUpdates process _) as [state5|e] eqn:H5; [|discriminate].
  cbn [mbind Completion_bind].
  intros H6.
  rewrite (Hfork _ _ _ H6), (Hfinal _ _ _ H5), (Hslashings _ _ _ H4).
  cbn [processRegistryUpdates finalizedCheckpoint].
  rewrite (Hrewards _ _ _ H2).
  by apply finalized_after_justification.
Qed.

(** The order of the checkpoints is kept, so the states the transition
    produces are valid inputs of the next one: when moreover the current
    justified checkpoint is not newer than the previous epoch, the
    checkpoints after the stage are in order and the current justified one
    is not newer than the current epoch. *)
Lemma checkpointsOrdered_preserved (cfg : IBeaconParams) (process : IEpochProcess)
  (state : BeaconState) :
  checkpointsOrdered state →
  (cp_epoch (currentJustifiedCheckpoint state) ≤ prevEpoch process)%Z →
  (prevEpoch process ≤ currentEpoch process)%Z →
  let state' := processJustificationAndFinalization getBlockRoot cfg process state in
  checkpointsOrdered state' ∧
  (cp_epoch (currentJustifiedCheckpoint state') ≤ currentEpoch process)%Z.
Proof.
  intros [Hfp Hpc] Hcur Hepochs. cbv zeta.
  unfold processJustificationAndFinalization, checkpointsOrdered.
  destruct (currentEpoch process <=? GENESIS_EPOCH cfg + 1)%Z; [lia|].
  cbn [finalizedCheckpoint previousJustifiedCheckpoint currentJustifiedCheckpoint].
  match goal with
  | |- context [finalize ?rules ?bits ?cur ?fin] =>
      destruct (finalize_source (previousJustifiedCheckpoint state)
                  (currentJustifiedCheckpoint state) fin bits cur)
        as [->|[->| ->]]
  end;
  destruct (isSupermajority (prevEpochUnslashedTargetStake process) _),
    (isSupermajority (currEpochUnslashedTargetStake process) _);
  cbn [cp_epoch]; lia.
Qed.

End Transition.

(** *** A transition on the sample *)

Definition withBalances (bs : list Gwei) (state : BeaconState) : BeaconState :=
  {| slot := slot state;
     validators := validators state;
     balances := bs;
     justificationBits := justificationBits state;
     previousJustifiedCheckpoint := previousJustifiedCheckpoint state;
     currentJustifiedCheckpoint := currentJustifiedCheckpoint state;
     finalizedCheckpoint := finalizedCheckpoint state;
     slashings := slashings state |}.

Definition withSlashings (l : list Gwei) (state : BeaconState) : BeaconState :=
  {| slot := slot state;
     validators := validators state;
     balances := balances state;
     justificationBits := justificationBits state;
     previousJustifiedCheckpoint := previousJustifiedCheckpoint state;
     currentJustifiedCheckpoint := currentJustifiedCheckpoint state;
     finalizedCheckpoint := finalizedCheckpoint state;
     slashings := l |}.

(** Stages for the sample runs. The first credits every validator that
    was active in the previous epoch with its base reward, and aborts when
    there is no active stake to divide by; the second takes a thirty-second
    of its effective balance from every slashed validator, down to zero at
    most; the third clears the first entry of the slashings vector; the
    last finds no change of protocol version. *)
Definition sampleRewards (cfg : IBeaconParams) : StageOf :=
  λ process state,
    if (integerSqrt (totalActiveStake process) =? 0)%N
    then Throw (ErrorMessage "StateCorruptError")
    else
      Return
        (withBalances
           (zip_with (λ '(v, status) balance,
                        if activePreviousEpoch status
                        then (balance + default 0 (getBaseReward cfg process v))%N
                        else balance)
                     (zip (validators state) (statuses process)) (balances state))
           state).

Definition sampleSlashings : StageOf :=
  λ process state,
    Return
      (withBalances
         (zip_with (λ v balance,
                      if slashed v then (balance - effectiveBalance v / 32)%N
                      else balance)
                   (validators state) (balances state))
         state).

Definition sampleFinalUpdates : StageOf :=
  λ process state,
    Return (withSlashings (match slashings state with
                           | [] => []
                           | _ :: rest => 0%N :: rest
                           end) state).

Definition sampleForkChanged : StageOf := λ process state, Return state.

Lemma sampleRewards_keepsFinalized (cfg : IBeaconParams) :
  keepsFinalized (sampleRewards cfg).
Proof.
  intros process state state'. unfold sampleRewards.
  destruct (_ =? _)%N; [discriminate|]. by intros [= <-].
Qed.

Lemma sampleSlashings_keepsFinalized : keepsFinalized sampleSlashings.
Proof. intros process state state'. by intros [= <-]. Qed.

Lemma sampleFinalUpdates_keepsFinalized : keepsFinalized sampleFinalUpdates.
Proof. intros process state state'. by intros [= <-]. Qed.

Lemma sampleForkChanged_keepsFinalized : keepsFinalized sampleForkChanged.
Proof. intros process state state'. by intros [= <-]. Qed.

Lemma finalized_epoch_monotone_witness :
  let run :=
    epochTransition unit (λ _ e, [x00]) (λ _ _, Return sampleProcess)
      (sampleRewards mainnet) sampleSlashings sampleFinalUpdates sampleForkChanged
      mainnet tt sampleState in
  checkpointsOrdered sampleState ∧
  ∃ state',
    run = Return state' ∧
    cp_epoch (finalizedCheckpoint sampleState) = 7%Z ∧
    cp_epoch (finalizedCheckpoint state') = 9%Z ∧
    balances state' = [32002862174%N] ∧
    (cp_epoch (finalizedCheckpoint sampleState)
       ≤ cp_epoch (finalizedCheckpoint state'))%Z.
Proof.
  intros run.
  assert (H : checkpointsOrdered sampleState) by (split; cbn; lia).
  split; [exact H|].
  eexists. split; [vm_compute; reflexivity|].
  split; [reflexivity|]. split; [reflexivity|]. split; [reflexivity|].
  apply (proj2 (finalized_epoch_monotone unit (λ _ e, [x00]) (λ _ _, Return sampleProcess)
                  (sampleRewards mainnet) sampleSlashings sampleFinalUpdates
                  sampleForkChanged mainnet tt sampleState H
                  (sampleRewards_keepsFinalized mainnet) sampleSlashings_keepsFinalized
                  sampleFinalUpdates_keepsFinalized sampleForkChanged_keepsFinalized)).
  vm_compute. reflexivity.
Defined.

(** On the sample both epochs are justified and the rule on the two most
    recent epochs finalizes the checkpoint of epoch 9. *)
Example processJustificationAndFinalization_sample :
  let state' :=
    processJustificationAndFinalization (λ _ e, [x00]) mainnet sampleProcess sampleState in
  justificationBits state' = [true; true; true; false] ∧
  finalizedCheckpoint state' = mkCheckpoint 9 [x09] ∧
  previousJustifiedCheckpoint state' = mkCheckpoint 9 [x09] ∧
  currentJustifiedCheckpoint state' = mkCheckpoint 10 [x00].
Proof. vm_compute. repeat split. Qed.

(** A state whose previous justified checkpoint is older than its
    finalized one is not a valid input: a rule that fires takes the
    finalized checkpoint back to it. *)
Example finalized_epoch_regresses_when_unordered :
  let state :=
    mkBeaconState 351 [] [] [true; true; true; false]
      (mkCheckpoint 7 [x07]) (mkCheckpoint 8 [x08]) (mkCheckpoint 9 [x09]) [] in
  let process := mkProcess 9 10 [] 30 0 0 0 in
  ¬ checkpointsOrdered state ∧
  cp_epoch (finalizedCheckpoint
              (processJustificationAndFinalization (λ _ e, [x00]) mainnet process state))
  = 7%Z.
Proof. split; [intros [H _]; cbn in H; lia|vm_compute; reflexivity]. Qed.

(** *** Activation up to the churn limit *)

(** Scenario C: ten validators wait in the queue, none is active, and the
    churn limit is the minimum, 4. *)
Definition queued (eligibility : Epoch) : Validator :=
  mkValidator [x01] 32000000000 false eligibility
    18446744073709551615 18446744073709551615 18446744073709551615.
Definition scenarioC_validators : list Validator :=
  queued <$> [5; 3; 4; 3; 7; 2; 6; 2; 8; 3]%Z.
Definition scenarioC_state : BeaconState :=
  mkBeaconState 351 scenarioC_validators (replicate 10 32000000000%N)
    [false; false; false; false]
    (mkCheckpoint 0 []) (mkCheckpoint 0 []) (mkCheckpoint 0 []) [].
Definition scenarioC_process : IEpochProcess :=
  mkProcess 9 10 (replicate 10 (mkStatus false false false false false false false 0))
    0 0 0 0.

Lemma setActivationEpoch_idemp (e : Epoch) (v : Validator) :
  setActivationEpoch e (setActivationEpoch e v) = setActivationEpoch e v.
Proof. reflexivity. Qed.

(** Activating the validators of a list of indices, one after the other:
    the records at these indices get the activation epoch, the others are
    untouched. *)
Lemma foldl_activate_lookup (cfg : IBeaconParams) (current : Epoch)
  (indices : list nat) (vs : list Validator) (i : nat) :
  foldl (activate cfg current) vs indices !! i
  = if decide (i ∈ indices)
    then setActivationEpoch (computeActivationExitEpoch cfg current) <$> vs !! i
    else vs !! i.
Proof.
  revert vs. induction indices as [|j indices IH]; intros vs; [done|].
  cbn [foldl]. rewrite IH. unfold activate.
  destruct (decide (i = j)) as [->|Hne].
  - rewrite list_lookup_alter_eq.
    destruct (decide (j ∈ j :: indices)) as [_|Hn];
      [|exfalso; apply Hn, list_elem_of_here].
    destruct (decide (j ∈ indices)); [|done].
    by destruct (vs !! j).
  - rewrite list_lookup_alter_ne by done.
    destruct (decide (i ∈ indices)) as [Hin|Hnin],
      (decide (i ∈ j :: indices)) as [Hin'|Hnin']; try done.
    + exfalso. apply Hnin'. by apply list_elem_of_further.
    + exfalso. apply elem_of_cons in Hin' as [?|?]; done.
Qed.

Lemma markEligibility_eligible (cfg : IBeaconParams) (current : Epoch) (v : Validator) :
  isEligibleForActivation cfg current (markEligibility cfg current v)
  = isEligibleForActivation cfg current v.
Proof.
  unfold markEligibility, eligibilityNewlyObserved.
  destruct (Z.eqb_spec (activationEligibilityEpoch v) (FAR_FUTURE_EPOCH cfg)) as [Hfar|Hset];
    [|done].
  destruct (effectiveBalance v =? MAX_EFFECTIVE_BALANCE cfg)%N; [|done].
  unfold isEligibleForActivation. cbn [andb activationEligibilityEpoch
    setActivationEligibilityEpoch activationEpoch].
  rewrite Hfar, Z.eqb_refl. cbn [negb andb].
  destruct (Z.leb_spec (current + 1) current) as [?|_]; [lia|].
  by rewrite andb_false_r.
Qed.

Lemma markEligibility_fixed (cfg : IBeaconParams) (current : Epoch) (v : Validator) :
  isEligibleForActivation cfg current v = true →
  markEligibility cfg current v = v.
Proof.
  unfold isEligibleForActivation, markEligibility, eligibilityNewlyObserved.
  destruct (activationEligibilityEpoch v =? FAR_FUTURE_EPOCH cfg)%Z; [done|].
  done.
Qed.

Lemma eligibleAt_marked (cfg : IBeaconParams) (current : Epoch)
  (vs : list Validator) (i : nat) :
  eligibleAt cfg current (markEligibility cfg current <$> vs) i
  = eligibleAt cfg current vs i.
Proof.
  unfold eligibleAt. rewrite list_lookup_fmap.
  destruct (vs !! i); [|done]. apply markEligibility_eligible.
Qed.

Lemma lookup_marked_eligible (cfg : IBeaconParams) (current : Epoch)
  (vs : list Validator) (i : nat) :
  eligibleAt cfg current vs i = true →
  (markEligibility cfg current <$> vs) !! i = vs !! i.
Proof.
  unfold eligibleAt. rewrite list_lookup_fmap.
  destruct (vs !! i) as [v|]; [|done]. intros Hv. simpl.
  by rewrite markEligibility_fixed.
Qed.

Lemma queueKey_marked (cfg : IBeaconParams) (current : Epoch)
  (vs : list Validator) (i : nat) :
  eligibleAt cfg current vs i = true →
  queueKey (markEligibility cfg current <$> vs) i = queueKey vs i.
Proof. intros Hi. unfold queueKey. by rewrite lookup_marked_eligible. Qed.

Lemma StronglySorted_on {A : Type} (R R' : relation A) (l : list A) :
  (∀ x y, x ∈ l → y ∈ l → R x y → R' x y) →
  StronglySorted R l → StronglySorted R' l.
Proof.
  intros Himpl Hsorted. induction Hsorted as [|x l Hl IH Hx]; [constructor|].
  constructor.
  - apply IH. intros y z Hy Hz. apply Himpl; by apply list_elem_of_further.
  - apply Forall_forall. intros y Hy. apply Himpl;
      [apply list_elem_of_here|by apply list_elem_of_further|].
    rewrite Forall_forall in Hx. by apply Hx.
Qed.

Lemma activationQueue_perm (cfg : IBeaconParams) (current : Epoch)
  (vs : list Validator) :
  activationQueue cfg current vs
  ≡ₚ filter (λ i, eligibleAt cfg current vs i = true) (seq 0 (length vs)).
Proof. apply merge_sort_Permutation. Qed.

Lemma activationQueue_marked_perm (cfg : IBeaconParams) (current : Epoch)
  (vs : list Validator) :
  activationQueue cfg current (markEligibility cfg current <$> vs)
  ≡ₚ filter (λ i, eligibleAt cfg current vs i = true) (seq 0 (length vs)).
Proof.
  rewrite activationQueue_perm, length_fmap.
  erewrite list_filter_iff; [done|].
  intros i. by rewrite eligibleAt_marked.
Qed.

Lemma elem_of_activationQueue_marked (cfg : IBeaconParams) (current : Epoch)
  (vs : list Validator) (i : nat) :
  i ∈ activationQueue cfg current (markEligibility cfg current <$> vs) ↔
  eligibleAt cfg current vs i = true.
Proof.
  rewrite activationQueue_marked_perm, list_elem_of_filter, elem_of_seq.
  split; [by intros [? _]|]. intros Hi. split; [done|].
  unfold eligibleAt in Hi. destruct (vs !! i) eqn:E; [|done].
  apply lookup_lt_Some in E. lia.
Qed.

Lemma activationQueue_marked_sorted (cfg : IBeaconParams) (current : Epoch)
  (vs : list Validator) :
  StronglySorted (queueOrder vs)
    (activationQueue cfg current (markEligibility cfg current <$> vs)).
Proof.
  eapply StronglySorted_on; [|apply StronglySorted_merge_sort; apply _].
  intros i j Hi Hj. fold (activationQueue cfg current (markEligibility cfg current <$> vs)) in Hi, Hj.
  apply elem_of_activationQueue_marked in Hi, Hj.
  unfold queueOrder. by rewrite !queueKey_marked.
Qed.

Lemma activationQueue_marked_NoDup (cfg : IBeaconParams) (current : Epoch)
  (vs : list Validator) :
  NoDup (activationQueue cfg current (markEligibility cfg current <$> vs)).
Proof.
  rewrite activationQueue_marked_perm. apply NoDup_filter, NoDup_seq.
Qed.

Lemma lookup_processRegistryUpdates (cfg : IBeaconParams) (process : IEpochProcess)
  (state : BeaconState) (i : nat) :
  let current := currentEpoch process in
  let marked := markEligibility cfg current <$> validators state in
  validators (processRegistryUpdates cfg process state) !! i
  = if decide (i ∈ take (N.to_nat (getChurnLimit cfg process))
                      (activationQueue cfg current marked))
    then setActivationEpoch (computeActivationExitEpoch cfg current) <$> marked !! i
    else marked !! i.
Proof. cbv zeta. unfold processRegistryUpdates. cbn [validators]. apply foldl_activate_lookup. Qed.

(** C7: with [n] validators eligible for activation and the churn limit
    [c = max(MIN_PER_EPOCH_CHURN_LIMIT, activeValidatorCount /
    CHURN_LIMIT_QUOTIENT)], the queue of the eligible validators in
    ascending (eligibility epoch, index) order has its first [min n c]
    members activated and no other validator is; the rest of the queue
    keeps its records and stays eligible. *)
Theorem activation_respects_churn_limit (cfg : IBeaconParams)
  (process : IEpochProcess) (state : BeaconState) :
  computeActivationExitEpoch cfg (currentEpoch process) ≠ FAR_FUTURE_EPOCH cfg →
  let vs := validators state in
  let vs' := validators (processRegistryUpdates cfg process state) in
  let current := currentEpoch process in
  let c := N.to_nat (N.max (MIN_PER_EPOCH_CHURN_LIMIT cfg)
                       (N.of_nat (activeValidatorCount process)
                          / CHURN_LIMIT_QUOTIENT cfg)) in
  ∃ queue : list nat,
    let n := length queue in
    queue ≡ₚ filter (λ i, eligibleAt cfg current vs i = true) (seq 0 (length vs)) ∧
    StronglySorted (queueOrder vs) queue ∧
    (∀ i, wasActivated cfg vs vs' i = true ↔ i ∈ take (min n c) queue) ∧
    length (filter (λ i, wasActivated cfg vs vs' i = true) (seq 0 (length vs)))
      = min n c ∧
    (∀ i v, i ∈ take (min n c) queue → vs !! i = Some v →
            vs' !! i
            = Some (setActivationEpoch (computeActivationExitEpoch cfg current) v)) ∧
    (∀ i, i ∈ drop (min n c) queue →
          vs' !! i = vs !! i ∧ eligibleAt cfg current vs' i = true).
Proof.
  intros Hfar. cbv zeta.
  set (current := currentEpoch process).
  set (marked := markEligibility cfg current <$> validators state).
  set (queue := activationQueue cfg current marked).
  fold (getChurnLimit cfg process).
  set (c := N.to_nat (getChurnLimit cfg process)).
  exists queue.
  assert (Htake : take (min (length queue) c) queue = take c queue).
  { destruct (Nat.le_ge_cases (length queue) c) as [Hle|Hge].
    - rewrite Nat.min_l by done. by rewrite !take_ge by lia.
    - by rewrite Nat.min_r by done. }
  assert (Hdrop : drop (min (length queue) c) queue = drop c queue).
  { destruct (Nat.le_ge_cases (length queue) c) as [Hle|Hge].
    - rewrite Nat.min_l by done. by rewrite !drop_ge by lia.
    - by rewrite Nat.min_r by done. }
  rewrite Htake, Hdrop.
  assert (Hqueue : ∀ i, i ∈ queue ↔ eligibleAt cfg current (validators state) i = true)
    by apply elem_of_activationQueue_marked.
  assert (Hlookup : ∀ i,
            validators (processRegistryUpdates cfg process state) !! i
            = if decide (i ∈ take c queue)
              then setActivationEpoch (computeActivationExitEpoch cfg current)
                     <$> marked !! i
              else marked !! i)
    by apply lookup_processRegistryUpdates.
  assert (Hact : ∀ i,
            wasActivated cfg (validators state)
              (validators (processRegistryUpdates cfg process state)) i = true
            ↔ i ∈ take c queue).
  { intros i. unfold wasActivated. rewrite Hlookup.
    destruct (decide (i ∈ take c queue)) as [Hin|Hnin].
    - split; [done|intros _].
      pose proof (subseteq_take c queue i Hin) as Hi. apply Hqueue in Hi.
      unfold marked. rewrite (lookup_marked_eligible _ _ _ _ Hi).
      unfold eligibleAt, isEligibleForActivation in Hi.
      destruct (validators state !! i) as [v|]; [|done]. simpl.
      apply andb_true_iff in Hi as [_ Hi]. rewrite Hi. simpl.
      apply negb_true_iff. by apply Z.eqb_neq.
    - split; [|done]. unfold marked. rewrite list_lookup_fmap.
      destruct (validators state !! i) as [v|]; [|done]. simpl.
      replace (activationEpoch (markEligibility cfg current v))
        with (activationEpoch v)
        by (unfold markEligibility; by destruct (eligibilityNewlyObserved cfg v)).
      by destruct (activationEpoch v =? FAR_FUTURE_EPOCH cfg)%Z. }
  split; [apply activationQueue_marked_perm|].
  split; [apply activationQueue_marked_sorted|].
  split; [exact Hact|].
  split; [|split].
  - rewrite Nat.min_comm, <- length_take.
    apply Permutation_length, NoDup_Permutation.
    + apply NoDup_filter, NoDup_seq.
    + eapply sublist_NoDup; [|apply sublist_take].
      apply activationQueue_marked_NoDup.
    + intros i. rewrite list_elem_of_filter, Hact, elem_of_seq.
      split; [by intros [? _]|]. intros Hin. split; [done|].
      pose proof (subseteq_take c queue i Hin) as Hi. apply Hqueue in Hi.
      unfold eligibleAt in Hi. destruct (validators state !! i) eqn:E; [|done].
      apply lookup_lt_Some in E. lia.
  - intros i v Hin Hv. rewrite Hlookup, decide_True by done.
    pose proof (subseteq_take c queue i Hin) as Hi. apply Hqueue in Hi.
    unfold marked. rewrite (lookup_marked_eligible _ _ _ _ Hi), Hv. done.
  - intros i Hin.
    assert (Hi : i ∈ queue).
    { rewrite <- (take_drop c queue). apply elem_of_app. by right. }
    assert (Hnin : i ∉ take c queue).
    { intros Ht. pose proof (activationQueue_marked_NoDup cfg current (validators state)) as Hnd.
      fold marked in Hnd. fold queue in Hnd.
      rewrite <- (take_drop c queue) in Hnd.
      apply NoDup_app in Hnd as (_ & Hdisj & _). by apply (Hdisj i). }
    apply Hqueue in Hi.
    assert (Heq : validators (processRegistryUpdates cfg process state) !! i
                  = validators state !! i).
    { rewrite Hlookup, decide_False by done.
      unfold marked. by apply lookup_marked_eligible. }
    split; [exact Heq|]. unfold eligibleAt. rewrite Heq. exact Hi.
Qed.

Lemma activation_respects_churn_limit_witness :
  ∃ queue : list nat,
    queue ≡ₚ filter (λ i, eligibleAt mainnet 10%Z scenarioC_validators i = true) (seq 0 10) ∧
    StronglySorted (queueOrder scenarioC_validators) queue ∧
    (∀ i, wasActivated mainnet scenarioC_validators
            (validators (processRegistryUpdates mainnet scenarioC_process scenarioC_state)) i
          = true ↔ i ∈ take (min (length queue) 4) queue) ∧
    length (filter (λ i, wasActivated mainnet scenarioC_validators
                           (validators (processRegistryUpdates mainnet
                                          scenarioC_process scenarioC_state)) i = true)
              (seq 0 10))
      = min (length queue) 4 ∧
    (∀ i v, i ∈ take (min (length queue) 4) queue →
            scenarioC_validators !! i = Some v →
            validators (processRegistryUpdates mainnet scenarioC_process scenarioC_state) !! i
            = Some (setActivationEpoch 15%Z v)) ∧
    (∀ i, i ∈ drop (min (length queue) 4) queue →
          validators (processRegistryUpdates mainnet scenarioC_process scenarioC_state) !! i
          = scenarioC_validators !! i ∧
          eligibleAt mainnet 10%Z
            (validators (processRegistryUpdates mainnet scenarioC_process scenarioC_state)) i
          = true).
Proof.
  apply (activation_respects_churn_limit mainnet scenarioC_process scenarioC_state).
  vm_compute. discriminate.
Defined.

(** Scenario C evaluated: ten validators are eligible, the churn limit
    is 4, and the four at the head of the queue (indices 5, 7, 1 and 3)
    are activated for epoch 15; the other six stay pending. *)
Example scenarioC :
  activationQueue mainnet 10%Z scenarioC_validators = [5; 7; 1; 3; 9; 2; 0; 6; 4; 8] ∧
  getChurnLimit mainnet scenarioC_process = 4%N ∧
  activationEpoch <$> validators (processRegistryUpdates mainnet scenarioC_process scenarioC_state)
  = [18446744073709551615; 15; 18446744073709551615; 15; 18446744073709551615;
     15; 18446744073709551615; 15; 18446744073709551615; 18446744073709551615]%Z.
Proof. vm_compute. repeat split. Qed.

End Epoch.


(** ** The epoch-processing performance suite

    The suite ([describe.only("Epoch Processing Performance Tests")])
    loads a state, steps one slot back, loads the [EpochContext] and then
    runs the stages of the epoch transition, one [it] block each. Mocha
    awaits the [before] hook and every [it] block in the order they are
    written; a block that throws is reported as failed and the next one
    runs; when the hook throws no block runs. The time limit the runner
    itself puts on a block is above every bound of the suite and is left
    out. *)

Module EpochPerformance.

Inductive Stage :=
  | LoadState
  | PrepareEpochProcessState
  | ProcessJustificationAndFinalization
  | ProcessRewardsAndPenalties
  | ProcessRegistryUpdates
  | ProcessSlashings
  | ProcessFinalUpdates
  | ProcessForkChanged.

#[global] Instance Stage_eq_dec : EqDecision Stage.
Proof. solve_decision. Defined.


Definition setSlot (s : Slot) (state : BeaconState) : BeaconState :=
  {| slot := s;
     validators := validators state;
     balances := balances state;
     justificationBits := justificationBits state;
     previousJustifiedCheckpoint := previousJustifiedCheckpoint state;
     currentJustifiedCheckpoint := currentJustifiedCheckpoint state;
     finalizedCheckpoint := finalizedCheckpoint state;
     slashings := slashings state |}.
Arguments setSlot _%_Z _.

(** The titles of the blocks, the bounds, in milliseconds, on the time
    each may take, and the stage each runs. *)
Definition blocks : list (string * Z * Stage) :=
  [ ("prepareEpochProcessState", 1300%Z, PrepareEpochProcessState);
    ("processJustificationAndFinalization", 2%Z, ProcessJustificationAndFinalization);
    ("processRewardsAndPenalties", 460%Z, ProcessRewardsAndPenalties);
    ("processRegistryUpdates", 2%Z, ProcessRegistryUpdates);
    ("processSlashings", 20%Z, ProcessSlashings);
    ("processFinalUpdates", 250%Z, ProcessFinalUpdates);
    ("processForkChanged", 2%Z, ProcessForkChanged) ].

Definition passed {A : Type} (c : Completion A) : bool :=
  match c with
  | Return _ => true
  | Throw _ => false
  end.

Section Suite.
Variables (EpochContext IEpochProcess : Type).

(** What the variables [epochCtx], [process] and [state] of the
    [describe] block hold once the hook has defined the first and the
    last; [process] is [undefined] until a block assigns it. *)
Definition Objects : Type := EpochContext * option IEpochProcess * BeaconState.

(** A stage function ([src/fast/epoch], not part of the sources), called
    with references to the context, the working set and the state: the
    call returns or throws, and the objects are left as the call leaves
    them. A stage called while [process] is still [undefined] gets
    [undefined] for it. *)
Record StageFn := mkStageFn {
  onProcess :
    EpochContext → IEpochProcess → BeaconState →
    Completion unit * (EpochContext * IEpochProcess * BeaconState);
  onUndefined :
    EpochContext → BeaconState → Completion unit * (EpochContext * BeaconState)
}.

(** [f(epochCtx, process, state)] *)
Definition applyStage (f : StageFn) (objs : Objects) : Completion unit * Objects :=
  match objs with
  | (c, Some p, st) =>
      let r := onProcess f c p st in (r.1, (r.2.1.1, Some r.2.1.2, r.2.2))
  | (c, None, st) =>
      let r := onUndefined f c st in (r.1, (r.2.1, None, r.2.2))
  end.

(** What the hook awaits and calls: [initBLS()], [loadPerformanceState()],
    [new EpochContext(config)] and [epochCtx.loadState(state)]. *)
Variable initBLS : Completion unit.
Variable loadPerformanceState : Completion BeaconState.
Variable newEpochContext : Completion EpochContext.
Variable loadState :
  EpochContext → BeaconState → Completion unit * (EpochContext * BeaconState).
(** [prepareEpochProcessState(epochCtx, state)] returns the working set or
    throws. *)
Variable prepareEpochProcessState :
  EpochContext → BeaconState → Completion IEpochProcess * (EpochContext * BeaconState).
Variable processJustificationAndFinalization : StageFn.
Variable processRewardsAndPenalties : StageFn.
Variable processRegistryUpdates : StageFn.
Variable processSlashings : StageFn.
Variable processFinalUpdates : StageFn.
Variable processForkChanged : StageFn.

(** [epochCtx.loadState(state)] *)
Definition runLoadState (objs : Objects) : Completion unit * Objects :=
  let r := loadState objs.1.1 objs.2 in
  (r.1, (r.2.1, objs.1.2, r.2.2)).

(** [process = prepareEpochProcessState(epochCtx, state)]: the variable
    is assigned when the call returns. *)
Definition runPrepare (objs : Objects) : Completion unit * Objects :=
  let r := prepareEpochProcessState objs.1.1 objs.2 in
  match r.1 with
  | Return p => (Return tt, (r.2.1, Some p, r.2.2))
  | Throw e => (Throw e, (r.2.1, objs.1.2, r.2.2))
  end.

(** What the call of a stage of the pipeline does to the objects. *)
Definition stageRun (s : Stage) : Objects → Completion unit * Objects :=
  match s with
  | LoadState => runLoadState
  | PrepareEpochProcessState => runPrepare
  | ProcessJustificationAndFinalization =>
      applyStage processJustificationAndFinalization
  | ProcessRewardsAndPenalties => applyStage processRewardsAndPenalties
  | ProcessRegistryUpdates => applyStage processRegistryUpdates
  | ProcessSlashings => applyStage processSlashings
  | ProcessFinalUpdates => applyStage processFinalUpdates
  | ProcessForkChanged => applyStage processForkChanged
  end.

(** What a run leaves behind: the calls of [logger.profile], and for
    each call of a stage the objects it was called with, how it ended and
    the objects as it left them. *)
Inductive Event :=
  | EvProfile (id : string)
  | EvCall (s : Stage) (objs : Objects)
  | EvEnd (s : Stage) (outcome : Completion unit) (objs : Objects).

Definition isStageEvent (ev : Event) : bool :=
  match ev with
  | EvProfile _ => false
  | EvCall _ _ | EvEnd _ _ _ => true
  end.

Definition stageEvents (trace : list Event) : list Event := filter isStageEvent trace.

Definition isCallOf (s : Stage) (ev : Event) : bool :=
  match ev with
  | EvCall s' _ => bool_decide (s' = s)
  | _ => false
  end.


(** The world of a run once the hook has passed: the variables, the
    clock [Date.now()] reads (its readings in the order they are taken,
    and how many were taken), and the events so far. *)
Record World := mkWorld {
  vars : Objects;
  clock : nat → Z;
  ticks : nat;
  trace : list Event
}.

Definition M (A : Type) : Type := World → Completion A * World.

#[local] Instance M_ret : MRet M := λ A a w, (Return a, w).
#[local] Instance M_bind : MBind M := λ A B f m w,
  match m w with
  | (Return a, w') => f a w'
  | (Throw e, w') => (Throw e, w')
  end.

Definition emit (ev : Event) : M unit :=
  λ w, (Return tt, mkWorld (vars w) (clock w) (ticks w) (trace w ++ [ev])).

(** [Date.now()] *)
Definition dateNow : M Z :=
  λ w, (Return (clock w (ticks w)),
        mkWorld (vars w) (clock w) (S (ticks w)) (trace w)).

(** [logger.profile(id)] *)
Definition loggerProfile (id : string) : M unit := emit (EvProfile id).

(** [expect(x).lt(bound)] *)
Definition expectLt (x bound : Z) : M unit :=
  λ w, (if (x <? bound)%Z then Return tt else Throw AssertionError, w).

(** A call on the three variables: the objects are what the call leaves
    them as, also when it throws. *)
Definition call (s : Stage) (run : Objects → Completion unit * Objects) : M unit :=
  λ w,
    let r := run (vars w) in
    (r.1,
     mkWorld r.2 (clock w) (ticks w)
       (trace w ++ [EvCall s (vars w); EvEnd s r.1 r.2])).

Definition callStage (s : Stage) (f : StageFn) : M unit := call s (applyStage f).

Definition callPrepare : M unit := call PrepareEpochProcessState runPrepare.

(** How the hook ends: with the world the blocks start from, or with
    the error that keeps them from running. *)
Inductive Hooked :=
  | HookPassed (w : World)
  | HookFailed (e : Error) (events : list Event).

(** The [before] hook. *)
Definition beforeHook (clk : nat → Z) : Hooked :=
  match initBLS with
  | Throw e => HookFailed e []
  | Return _ =>
      match loadPerformanceState with
      | Throw e => HookFailed e []
      | Return loaded =>
          (* go back 1 slot to process epoch *)
          let state := setSlot (slot loaded - 1)%Z loaded in
          match newEpochContext with
          | Throw e => HookFailed e []
          | Return epochCtx =>
              let r := call LoadState runLoadState
                         (mkWorld (epochCtx, None, state) clk 0 []) in
              match r.1 with
              | Return _ => HookPassed r.2
              | Throw e => HookFailed e (trace r.2)
              end
          end
      end
  end.

(** The body the [it] blocks share: the call between two calls of
    [logger.profile], and the time it took against a bound. A call that
    throws ends the block there. *)
Definition timed (id : string) (bound : Z) (body : M unit) : M unit :=
  start ← dateNow;
  loggerProfile id;;
  body;;
  loggerProfile id;;
  stop ← dateNow;
  expectLt (stop - start) bound.

Record Test := mkTest {
  title : string;
  body : M unit
}.

(** The [it] blocks, in the order they are written. *)
Definition tests : list Test :=
  [ mkTest "prepareEpochProcessState"
      (timed "prepareEpochProcessState" 1300 callPrepare);
    mkTest "processJustificationAndFinalization"
      (timed "processJustificationAndFinalization" 2
         (callStage ProcessJustificationAndFinalization
            processJustificationAndFinalization));
    mkTest "processRewardsAndPenalties"
      (timed "processRewardsAndPenalties" 460
         (callStage ProcessRewardsAndPenalties processRewardsAndPenalties));
    mkTest "processRegistryUpdates"
      (timed "processRegistryUpdates" 2
         (callStage ProcessRegistryUpdates processRegistryUpdates));
    mkTest "processSlashings"
      (timed "processSlashings" 20 (callStage ProcessSlashings processSlashings));
    mkTest "processFinalUpdates"
      (timed "processFinalUpdates" 250
         (callStage ProcessFinalUpdates processFinalUpdates));
    mkTest "processForkChanged"
      (timed "processForkChanged" 2
         (callStage ProcessForkChanged processForkChanged)) ].

(** The report of a run: which blocks passed. *)
Definition Report := list (string * bool).

(** Mocha runs the blocks one after the other; a block that throws does
    not stop the run. *)
Definition runTest (acc : World * Report) (t : Test) : World * Report :=
  let r := body t acc.1 in
  (r.2, acc.2 ++ [(title t, passed r.1)]).

Definition runTests (ts : list Test) (w : World) : World * Report :=
  foldl runTest (w, []) ts.

(** The suite: when the hook throws no block runs. *)
Definition runSuite (clk : nat → Z) : Hooked * Report :=
  match beforeHook clk with
  | HookPassed w => let r := runTests tests w in (HookPassed r.1, r.2)
  | HookFailed e events => (HookFailed e events, [])
  end.


(** The calls of a list of stages made one after the other, each on the
    objects as the call before it left them. *)
Fixpoint chain (stages : list Stage) (objs : Objects) : list Event :=
  match stages with
  | [] => []
  | s :: stages' =>
      let r := stageRun s objs in
      EvCall s objs :: EvEnd s r.1 r.2 :: chain stages' r.2
  end.

(** The objects after the calls of a list of stages. *)
Definition after (stages : list Stage) (objs : Objects) : Objects :=
  foldl (λ objs s, (stageRun s objs).2) objs stages.

(** The verdicts on a list of blocks run from given objects, when the
    clock has been read [t] times: a block whose call throws fails after
    one reading; a block whose call returns takes a second reading, and
    passes when the two differ by less than its bound. *)
Fixpoint verdicts (clk : nat → Z) (bs : list (string * Z * Stage)) (objs : Objects)
  (t : nat) : Report :=
  match bs with
  | [] => []
  | (id, bound, s) :: bs' =>
      let r := stageRun s objs in
      if passed r.1
      then (id, (clk (S t) - clk t <? bound)%Z) :: verdicts clk bs' r.2 (S (S t))
      else (id, false) :: verdicts clk bs' r.2 (S t)
  end.

(** The end of a call that returned. *)
Definition passed_end (ev : Event) : bool :=
  match ev with
  | EvEnd _ outcome _ => passed outcome
  | _ => false
  end.

Definition isEndOf_any (ev : Event) : bool :=
  match ev with
  | EvEnd _ _ _ => true
  | _ => false
  end.

(** The block of a title, a bound and a stage. *)
Definition testOf (b : string * Z * Stage) : Test :=
  mkTest b.1.1 (timed b.1.1 b.1.2 (call b.2 (stageRun b.2))).

(** *** The blocks one by one *)

Lemma tests_blocks : tests = testOf <$> blocks.
Proof. reflexivity. Qed.

Lemma stageEvents_app (l1 l2 : list Event) :
  stageEvents (l1 ++ l2) = stageEvents l1 ++ stageEvents l2.
Proof. apply filter_app. Qed.

(** One block: the objects are left as the call leaves them, the clock is
    read once more when the call returns, and the block passes when the
    call returns in time. *)
Lemma timed_call (id : string) (bound : Z) (s : Stage)
  (run : Objects → Completion unit * Objects) (w : World) :
  let r := run (vars w) in
  let w' := (timed id bound (call s run) w).2 in
  vars w' = r.2 ∧
  clock w' = clock w ∧
  ticks w' = (if passed r.1 then S (S (ticks w)) else S (ticks w)) ∧
  stageEvents (trace w') = stageEvents (trace w) ++ [EvCall s (vars w); EvEnd s r.1 r.2] ∧
  passed (timed id bound (call s run) w).1
  = passed r.1 && (clock w (S (ticks w)) - clock w (ticks w) <? bound)%Z.
Proof.
  cbv zeta. unfold timed, call.
  cbv [mbind M_bind mret M_ret dateNow loggerProfile emit expectLt].
  cbn [vars clock ticks trace].
  destruct (run (vars w)) as [[[]|e] objs']; cbn [fst snd vars clock ticks trace passed];
    rewrite ?stageEvents_app; cbn [stageEvents filter isStageEvent];
    rewrite ?app_nil_r; repeat split; try reflexivity.
  by destruct (_ <? _)%Z.
Qed.

(** The report so far has no part in what a run does. *)
Lemma foldl_runTest (ts : list Test) (w : World) (report : Report) :
  foldl runTest (w, report) ts
  = ((foldl runTest (w, []) ts).1, report ++ (foldl runTest (w, []) ts).2).
Proof.
  revert w report. induction ts as [|t ts IH]; intros w report.
  - cbn. by rewrite app_nil_r.
  - cbn [foldl]. unfold runTest at 2 4 6. cbn [fst snd].
    rewrite (IH _ (report ++ _)), (IH _ ([] ++ _)). cbn [fst snd app].
    by rewrite <- app_assoc.
Qed.

Lemma runTests_cons (t : Test) (ts : list Test) (w : World) :
  runTests (t :: ts) w
  = ((runTests ts (body t w).2).1,
     (title t, passed (body t w).1) :: (runTests ts (body t w).2).2).
Proof. unfold runTests. cbn [foldl]. unfold runTest at 2. by rewrite foldl_runTest. Qed.

(** The blocks of a list run one after the other. *)
Lemma runTests_testOf (bs : list (string * Z * Stage)) (w : World) :
  let r := runTests (testOf <$> bs) w in
  vars r.1 = after bs.*2 (vars w) ∧
  clock r.1 = clock w ∧
  stageEvents (trace r.1) = stageEvents (trace w) ++ chain bs.*2 (vars w) ∧
  r.2 = verdicts (clock w) bs (vars w) (ticks w) ∧
  ticks r.1
  = (ticks w + length bs + length (filter (λ ev, passed_end ev) (chain bs.*2 (vars w))))%nat.
Proof.
  cbv zeta. revert w. induction bs as [|[[id bound] s] bs IH]; intros w.
  - cbn. rewrite app_nil_r. repeat split; lia.
  - cbn [fmap list_fmap]. rewrite runTests_cons. cbn [fst snd].
    destruct (timed_call id bound s (stageRun s) w) as (Hv & Hc & Ht & He & Hp).
    change (body (testOf (id, bound, s)) w) with (timed id bound (call s (stageRun s)) w).
    destruct (IH (timed id bound (call s (stageRun s)) w).2)
      as (IHv & IHc & IHe & IHr & IHt).
    rewrite IHv, IHc, IHe, IHr, IHt, Hv, Hc, He, Ht, Hp.
    cbn [after foldl chain verdicts title testOf fst snd].
    split; [done|]. split; [done|]. split; [by rewrite <- app_assoc|]. split.
    + destruct (passed (stageRun s (vars w)).1); reflexivity.
    + do 2 rewrite filter_cons.
      cbn [passed_end].
      destruct (passed (stageRun s (vars w)).1); cbn [Is_true];
        rewrite ?decide_False, ?decide_True by tauto; cbn [length]; lia.
Qed.

(** *** The run of the suite *)


Lemma verdicts_titles (clk : nat → Z) (bs : list (string * Z * Stage))
  (objs : Objects) (t : nat) :
  (verdicts clk bs objs t).*1 = bs.*1.*1.
Proof.
  revert objs t. induction bs as [|[[id bound] s] bs IH]; intros objs t; [done|].
  cbn [verdicts]. destruct (passed _); cbn [fmap list_fmap fst]; by rewrite IH.
Qed.

Lemma verdicts_returned (clk : nat → Z) (bs : list (string * Z * Stage))
  (objs : Objects) (t : nat) :
  Forall (λ ev, isEndOf_any ev = true → passed_end ev = true) (chain bs.*2 objs) →
  verdicts clk bs objs t
  = imap (λ k b, (b.1.1, (clk (t + 2 * k + 1)%nat - clk (t + 2 * k)%nat <? b.1.2)%Z)) bs.
Proof.
  revert objs t. induction bs as [|[[id bound] s] bs IH]; intros objs t Hall; [done|].
  cbn [fmap list_fmap snd chain] in Hall.
  apply Forall_cons in Hall as [_ Hall]. apply Forall_cons in Hall as [Hp Hall].
  specialize (Hp eq_refl). cbn [passed_end] in Hp.
  cbn [verdicts imap]. rewrite Hp, (IH _ _ Hall). cbn [fst snd]. f_equal.
  - replace (t + 2 * 0 + 1)%nat with (S t) by lia.
    by replace (t + 2 * 0)%nat with t by lia.
  - apply imap_ext. intros k b _. cbn [compose].
    replace (S (S t) + 2 * k + 1)%nat with (t + 2 * S k + 1)%nat by lia.
    by replace (S (S t) + 2 * k)%nat with (t + 2 * S k)%nat by lia.
Qed.

(** The run once the three loads of the hook have returned. *)
Lemma runSuite_loaded (clk : nat → Z) (loaded : BeaconState) (epochCtx : EpochContext) :
  initBLS = Return tt →
  loadPerformanceState = Return loaded →
  newEpochContext = Return epochCtx →
  let objs := (epochCtx, None, setSlot (slot loaded - 1) loaded) in
  let r := runLoadState objs in
  let events := [EvCall LoadState objs; EvEnd LoadState r.1 r.2] in
  runSuite clk
  = match r.1 with
    | Return _ =>
        let run := runTests tests (mkWorld r.2 clk 0 events) in
        (HookPassed run.1, run.2)
    | Throw e => (HookFailed e events, [])
    end.
Proof.
  intros Hbls Hload Hctx. cbv zeta. unfold runSuite, beforeHook.
  rewrite Hbls, Hload, Hctx. unfold call. cbn [vars clock ticks trace fst snd app].
  destruct (runLoadState _).1 as [[]|e]; reflexivity.
Qed.


(** Every block is run, whether or not the ones before it passed. A block
    whose call throws fails whatever the clock shows, after one reading of
    it; a block whose call returns reads the clock a second time and passes
    exactly when the two readings differ by less than its bound. So the
    clock is read once per block and once more per call that returned, and
    when no call throws the block numbered [k] is decided by the readings
    numbered [2k] and [2k+1], fourteen in all. When [loadState] throws in
    the hook nothing is reported. *)
Theorem report_of_calls_and_clock (clk : nat → Z) (loaded : BeaconState)
  (epochCtx : EpochContext) :
  initBLS = Return tt →
  loadPerformanceState = Return loaded →
  newEpochContext = Return epochCtx →
  let r := loadState epochCtx (setSlot (slot loaded - 1) loaded) in
  let objs : Objects := (r.2.1, None, r.2.2) in
  let calls := chain blocks.*2 objs in
  (runSuite clk).2 = (if passed r.1 then verdicts clk blocks objs 0 else []) ∧
  (passed r.1 = true →
   (runSuite clk).2.*1 = blocks.*1.*1 ∧
   (∃ w, (runSuite clk).1 = HookPassed w ∧
         ticks w = (7 + length (filter passed_end calls))%nat) ∧
   (Forall (λ ev, isEndOf_any ev = true → passed_end ev = true) calls →
    (runSuite clk).2
    = imap (λ k b, (b.1.1, (clk (2 * k + 1)%nat - clk (2 * k)%nat <? b.1.2)%Z)) blocks)).
Proof.
  intros Hbls Hload Hctx. cbv zeta.
  rewrite (runSuite_loaded clk loaded epochCtx Hbls Hload Hctx). cbv zeta.
  unfold runLoadState. cbn [fst snd].
  set (objs := ((loadState epochCtx (setSlot (slot loaded - 1) loaded)).2.1, None,
                (loadState epochCtx (setSlot (slot loaded - 1) loaded)).2.2) : Objects).
  match goal with
  | |- context [runTests tests ?w] =>
      pose proof (runTests_testOf blocks w) as Hrun;
      rewrite <- tests_blocks in Hrun; cbv zeta in Hrun;
      cbn [vars clock ticks] in Hrun;
      destruct Hrun as (_ & _ & _ & Hreport & Hticks);
      generalize dependent (runTests tests w)
  end.
  intros run Hreport Hticks.
  destruct (loadState epochCtx (setSlot (slot loaded - 1) loaded)).1 as [[]|e];
    cbn [passed fst snd]; [|split; [reflexivity|discriminate]].
  rewrite Hreport.
  split; [reflexivity|]. intros _. split; [|split].
  - apply verdicts_titles.
  - eexists. split; [reflexivity|]. rewrite Hticks.
    change (length blocks) with 7%nat. lia.
  - intros Hall. rewrite (verdicts_returned _ _ _ _ Hall).
    apply imap_ext. intros k b _.
    by replace (0 + 2 * k + 1)%nat with (2 * k + 1)%nat by lia.
Qed.

End Suite.

(** *** Runs on a sample *)

(** A stage of the transition as the suite calls it: on a throw the
    objects are left as they were, and called before the working set is
    there it throws. *)
Definition ofStage {C : Type} (stage : Epoch.StageOf) : StageFn C Epoch.IEpochProcess :=
  mkStageFn C Epoch.IEpochProcess
    (λ c p st,
       match stage p st with
       | Return st' => (Return tt, (c, p, st'))
       | Throw e => (Throw e, (c, p, st))
       end)
    (λ c st, (Throw TypeError, (c, st))).

(** The table of [pubkey2index] extended with the validators of a
    state. *)
Definition sampleLoadState (ctx : BeaconApi.EpochContext) (st : BeaconState)
  : Completion unit * (BeaconApi.EpochContext * BeaconState) :=
  (Return tt,
   (BeaconApi.mkEpochContext
      (BeaconApi.pubkey2index ctx ∪
       list_to_map (imap (λ i v, (pubkey v, i)) (validators st))),
    st)).

(** The state the sample runs load: the sample state of the stages, at
    the first slot of the next epoch. *)
Definition sampleLoaded : BeaconState := setSlot 352 Epoch.sampleState.

(** The suite on the sample, for a working set that is given and a clock:
    the stages are the two that are modelled and the four sample ones. *)
Definition sampleSuite (process : Epoch.IEpochProcess) (clk : nat → Z)
  : Hooked BeaconApi.EpochContext Epoch.IEpochProcess * Report :=
  runSuite BeaconApi.EpochContext Epoch.IEpochProcess
    (Return tt) (Return sampleLoaded) (Return (BeaconApi.mkEpochContext ∅))
    sampleLoadState (λ c st, (Return process, (c, st)))
    (ofStage (λ p st,
                Return (Epoch.processJustificationAndFinalization (λ _ _, [x00])
                          Epoch.mainnet p st)))
    (ofStage (Epoch.sampleRewards Epoch.mainnet))
    (ofStage (λ p st, Return (Epoch.processRegistryUpdates Epoch.mainnet p st)))
    (ofStage Epoch.sampleSlashings)
    (ofStage Epoch.sampleFinalUpdates)
    (ofStage Epoch.sampleForkChanged)
    clk.

Definition sampleChain (process : Epoch.IEpochProcess) (stages : list Stage)
  : Objects BeaconApi.EpochContext Epoch.IEpochProcess →
    list (Event BeaconApi.EpochContext Epoch.IEpochProcess) :=
  chain BeaconApi.EpochContext Epoch.IEpochProcess
    sampleLoadState (λ c st, (Return process, (c, st)))
    (ofStage (λ p st,
                Return (Epoch.processJustificationAndFinalization (λ _ _, [x00])
                          Epoch.mainnet p st)))
    (ofStage (Epoch.sampleRewards Epoch.mainnet))
    (ofStage (λ p st, Return (Epoch.processRegistryUpdates Epoch.mainnet p st)))
    (ofStage Epoch.sampleSlashings)
    (ofStage Epoch.sampleFinalUpdates)
    (ofStage Epoch.sampleForkChanged)
    stages.

Definition sampleVerdicts (process : Epoch.IEpochProcess) (clk : nat → Z)
  : list (string * Z * Stage) →
    Objects BeaconApi.EpochContext Epoch.IEpochProcess → nat → Report :=
  verdicts BeaconApi.EpochContext Epoch.IEpochProcess
    sampleLoadState (λ c st, (Return process, (c, st)))
    (ofStage (λ p st,
                Return (Epoch.processJustificationAndFinalization (λ _ _, [x00])
                          Epoch.mainnet p st)))
    (ofStage (Epoch.sampleRewards Epoch.mainnet))
    (ofStage (λ p st, Return (Epoch.processRegistryUpdates Epoch.mainnet p st)))
    (ofStage Epoch.sampleSlashings)
    (ofStage Epoch.sampleFinalUpdates)
    (ofStage Epoch.sampleForkChanged)
    clk.

(** A working set without active stake: the sample rewards stage
    aborts on it. *)
Definition emptyProcess : Epoch.IEpochProcess := Epoch.mkProcess 9 10 [] 0 0 0 0.

(** That every call of a list of events returned, as a check that runs. *)
Lemma all_returned {C P : Type} (events : list (Event C P)) :
  forallb (λ ev, implb (isEndOf_any C P ev) (passed_end C P ev)) events = true →
  Forall (λ ev, isEndOf_any C P ev = true → passed_end C P ev = true) events.
Proof.
  induction events as [|ev events IH]; cbn [forallb]; intros Hall.
  - constructor.
  - apply andb_prop in Hall as [Hev Hall].
    constructor; [|by apply IH].
    intros Hend. rewrite Hend in Hev. exact Hev.
Qed.


Lemma report_of_calls_and_clock_witness :
  let loadedCtx := (sampleLoadState (BeaconApi.mkEpochContext ∅)
                      (setSlot (slot sampleLoaded - 1) sampleLoaded)).2 in
  let objs : Objects BeaconApi.EpochContext Epoch.IEpochProcess :=
    (loadedCtx.1, None, loadedCtx.2) in
  let clk : nat → Z := λ n, (5 * Z.of_nat n)%Z in
  let calls := sampleChain Epoch.sampleProcess blocks.*2 objs in
  (sampleSuite Epoch.sampleProcess clk).2
  = sampleVerdicts Epoch.sampleProcess clk blocks objs 0 ∧
  (sampleSuite Epoch.sampleProcess clk).2.*1 = blocks.*1.*1 ∧
  (∃ w, (sampleSuite Epoch.sampleProcess clk).1 = HookPassed _ _ w ∧
        ticks _ _ w = (7 + length (filter (passed_end _ _) calls))%nat) ∧
  Forall (λ ev, isEndOf_any _ _ ev = true → passed_end _ _ ev = true) calls ∧
  (sampleSuite Epoch.sampleProcess clk).2
  = imap (λ k b, (b.1.1, (clk (2 * k + 1)%nat - clk (2 * k)%nat <? b.1.2)%Z)) blocks.
Proof.
  intros loadedCtx objs clk calls.
  assert (Hreturned :
            Forall (λ ev, isEndOf_any _ _ ev = true → passed_end _ _ ev = true) calls).
  { apply all_returned. vm_compute. reflexivity. }
  destruct (report_of_calls_and_clock BeaconApi.EpochContext Epoch.IEpochProcess
              (Return tt) (Return sampleLoaded) (Return (BeaconApi.mkEpochContext ∅))
              sampleLoadState (λ c st, (Return Epoch.sampleProcess, (c, st)))
              (ofStage (λ p st,
                          Return (Epoch.processJustificationAndFinalization
                                    (λ _ _, [x00]) Epoch.mainnet p st)))
              (ofStage (Epoch.sampleRewards Epoch.mainnet))
              (ofStage (λ p st,
                          Return (Epoch.processRegistryUpdates Epoch.mainnet p st)))
              (ofStage Epoch.sampleSlashings)
              (ofStage Epoch.sampleFinalUpdates)
              (ofStage Epoch.sampleForkChanged)
              clk sampleLoaded (BeaconApi.mkEpochContext ∅)
              eq_refl eq_refl eq_refl) as [Hreport Hloaded].
  destruct (Hloaded eq_refl) as (Htitles & Hticks & Hclock).
  split; [exact Hreport|].
  split; [exact Htitles|].
  split; [exact Hticks|].
  split; [exact Hreturned|].
  exact (Hclock Hreturned).
Defined.

(** On the sample every call returns: with a clock that advances by one
    at each reading every block passes, and the finalized checkpoint has
    moved from epoch 7 to epoch 9; with a clock five times as fast the
    blocks bounded by 2 fail, and the state is the same. *)
Example run_sample :
  let fast : nat → Z := λ n, Z.of_nat n in
  let slow : nat → Z := λ n, (5 * Z.of_nat n)%Z in
  (sampleSuite Epoch.sampleProcess fast).2
  = [("prepareEpochProcessState", true);
     ("processJustificationAndFinalization", true);
     ("processRewardsAndPenalties", true);
     ("processRegistryUpdates", true);
     ("processSlashings", true);
     ("processFinalUpdates", true);
     ("processForkChanged", true)] ∧
  (sampleSuite Epoch.sampleProcess slow).2
  = [("prepareEpochProcessState", true);
     ("processJustificationAndFinalization", false);
     ("processRewardsAndPenalties", true);
     ("processRegistryUpdates", false);
     ("processSlashings", true);
     ("processFinalUpdates", true);
     ("processForkChanged", false)] ∧
  match (sampleSuite Epoch.sampleProcess fast).1, (sampleSuite Epoch.sampleProcess slow).1 with
  | HookPassed _ _ w, HookPassed _ _ w' =>
      vars _ _ w = vars _ _ w' ∧ ticks _ _ w = 14%nat ∧
      finalizedCheckpoint (vars _ _ w).2 = mkCheckpoint 9 [x09] ∧
      slot (vars _ _ w).2 = 351%Z
  | _, _ => False
  end.
Proof. vm_compute. repeat split. Qed.

(** On a working set without active stake the rewards stage aborts: its
    block fails although the clock shows no time passing, the clock is read
    thirteen times, and the stages after it are called all the same, on the
    state as the failed call left it. *)
Example run_with_failing_stage :
  let still : nat → Z := λ _, 0%Z in
  (sampleSuite emptyProcess still).2
  = [("prepareEpochProcessState", true);
     ("processJustificationAndFinalization", true);
     ("processRewardsAndPenalties", false);
     ("processRegistryUpdates", true);
     ("processSlashings", true);
     ("processFinalUpdates", true);
     ("processForkChanged", true)] ∧
  match (sampleSuite emptyProcess still).1 with
  | HookPassed _ _ w =>
      ticks _ _ w = 13%nat ∧
      length (filter (isCallOf _ _ ProcessRegistryUpdates) (trace _ _ w)) = 1%nat
  | HookFailed _ _ _ _ => False
  end.
Proof. vm_compute. repeat split. Qed.

End EpochPerformance.
